(** * Portfolio backend (main.py, schemas.py): shallow embedding and properties

    The HTTP handlers of [main.py] are embedded as functions over an explicit
    world: the configuration read from the environment, the [db] handle
    ([None] when no database is configured) and the responses of the music
    provider.  Python exceptions are values of [exn]; a handler is a
    computation in a state-and-exception monad over the [db] handle. *)

From Stdlib Require Import ZArith NArith Ascii String List Bool Lia Sorted Permutation.
From stdpp Require Import base option list gmap strings.
Import ListNotations.
Local Open Scope string_scope.
Local Open Scope Z_scope.
Set Warnings "-register-all".

(** ** Exceptions and results *)

(** The exceptions the handlers can meet.  [HTTPException] and
    [RequestValidationError] are FastAPI's, [ValidationError] is pydantic's,
    [RequestException] is the requests library's, [StoreError] stands for the
    errors of the database driver; the others are Python's built-in classes. *)
Inductive exn : Type :=
  | HTTPException (status_code : Z) (detail : string)
  | TypeError
  | IndexError
  | KeyError
  | AttributeError
  | ValueError
  | OverflowError
  | ValidationError
  | RequestValidationError
  | RequestException
  | StoreError (msg : string).

Inductive result (A : Type) : Type :=
  | Return (a : A)
  | Raise (e : exn).
Arguments Return {A} a.
Arguments Raise {A} e.

Definition rbind {A B} (r : result A) (k : A -> result B) : result B :=
  match r with
  | Return a => k a
  | Raise e => Raise e
  end.

(** [try: body except Exception: handler] *)
Definition try_except {A} (body handler : result A) : result A :=
  match body with
  | Return a => Return a
  | Raise _ => handler
  end.

(** ** Python strings
    A [str] is modelled by its code points below 256 (a header value is
    decoded as latin-1 by the framework), one [ascii] each. *)

Definition in_range (lo hi n : N) : bool := ((lo <=? n) && (n <=? hi))%N.

(** [str.lower] on one code point below 256: A-Z and the accented capitals
    U+00C0..U+00DE (except the multiplication sign U+00D7) move by 32. *)
Definition lower_char (c : ascii) : ascii :=
  let n := N_of_ascii c in
  if in_range 65 90 n || (in_range 192 222 n && negb (n =? 215)%N)
  then ascii_of_N (n + 32)
  else c.

Fixpoint str_lower (s : string) : string :=
  match s with
  | EmptyString => EmptyString
  | String c s' => String (lower_char c) (str_lower s')
  end.

(** [s.startswith(p)] *)
Fixpoint startswith (s p : string) : bool :=
  match p with
  | EmptyString => true
  | String b p' =>
      match s with
      | EmptyString => false
      | String a s' => if Ascii.eqb a b then startswith s' p' else false
      end
  end.

(** [s.split(sep, 1)] for a one-character separator: the text before the
    first separator and the text after it, or the whole string alone. *)
Fixpoint str_split1 (sep : ascii) (s : string) : list string :=
  match s with
  | EmptyString => [EmptyString]
  | String c s' =>
      if Ascii.eqb c sep then [EmptyString; s']
      else match str_split1 sep s' with
           | h :: t => String c h :: t
           | [] => [String c EmptyString]
           end
  end.

(** [l[i]], raising [IndexError] out of range *)
Definition py_index {A} (l : list A) (i : nat) : result A :=
  match nth_error l i with
  | Some x => Return x
  | None => Raise IndexError
  end.

(** Truthiness of a [str] and of an [Optional[str]] *)
Definition str_truthy (s : string) : bool :=
  match s with EmptyString => false | _ => true end.

Definition opt_truthy (o : option string) : bool :=
  match o with Some s => str_truthy s | None => false end.

(** ** The access gate: [require_admin] *)

Definition Unauthorized : exn := HTTPException 401 "Unauthorized".

Definition require_admin (ADMIN_TOKEN : string) (authorization : option string)
  : result unit :=
  rbind
    (match authorization with
     | Some a =>
         if str_truthy a && startswith (str_lower a) "bearer "
         then py_index (str_split1 " "%char a) 1
         else Return ""
     | None => Return ""
     end)
    (fun token =>
       if negb (str_truthy ADMIN_TOKEN) || negb (String.eqb token ADMIN_TOKEN)
       then Raise Unauthorized
       else Return tt).

(** The gate as the specification words it: a secret is configured, the
    header is present and is a prefix that lower-cases to ["bearer "] followed
    by exactly the secret. *)
Definition header_authorizes (secret : string) (authorization : option string) : Prop :=
  secret <> "" /\
  exists h prefix,
    authorization = Some h /\ h = prefix ++ secret /\ str_lower prefix = "bearer ".

(** ** BSON values, documents and object identifiers *)

(** A stored value.  [VOid] carries the raw bytes of a [bson.ObjectId]. *)
Inductive value : Type :=
  | VNull
  | VBool (b : bool)
  | VInt (z : Z)
  | VStr (s : string)
  | VList (l : list value)
  | VOid (o : list N).

(** A document is a dict from field names to values. *)
Abbreviation doc := (gmap string value).

Definition hex_val (c : ascii) : option N :=
  let n := N_of_ascii c in
  if in_range 48 57 n then Some (n - 48)%N
  else if in_range 97 102 n then Some (n - 87)%N
  else if in_range 65 70 n then Some (n - 55)%N
  else None.

(** ASCII whitespace, which [bytes.fromhex] skips between bytes *)
Definition is_space (c : ascii) : bool :=
  let n := N_of_ascii c in in_range 9 13 n || (n =? 32)%N.

(** [bytes.fromhex(s)] *)
Fixpoint bytes_fromhex (s : string) : result (list N) :=
  match s with
  | EmptyString => Return []
  | String c s' =>
      if is_space c then bytes_fromhex s'
      else match hex_val c, s' with
           | Some top, String d s'' =>
               match hex_val d with
               | Some bot =>
                   rbind (bytes_fromhex s'') (fun l => Return ((top * 16 + bot)%N :: l))
               | None => Raise ValueError
               end
           | _, _ => Raise ValueError
           end
  end.

(** [ObjectId(oid)] for a [str]: 24 characters that [bytes.fromhex] accepts;
    [InvalidId] is a [ValueError] in bson. *)
Definition ObjectId (oid : string) : result (list N) :=
  if (String.length oid =? 24)%nat
  then match bytes_fromhex oid with
       | Return b => Return b
       | Raise _ => Raise ValueError
       end
  else Raise ValueError.

(** [ObjectId.is_valid(oid)] for a [str] *)
Definition ObjectId_is_valid (oid : string) : bool :=
  if negb (str_truthy oid) then false
  else match ObjectId oid with
       | Return _ => true
       | Raise _ => false
       end.

Definition hex_digit (n : N) : ascii :=
  if (n <? 10)%N then ascii_of_N (48 + n) else ascii_of_N (87 + n).

(** [str(ObjectId)]: two lower-case hexadecimal digits per byte *)
Fixpoint oid_str (o : list N) : string :=
  match o with
  | [] => EmptyString
  | b :: o' => String (hex_digit (b / 16)) (String (hex_digit (b mod 16)) (oid_str o'))
  end.

(** The [k] low bytes of [n], most significant first *)
Fixpoint be_bytes (k : nat) (n : N) : list N :=
  match k with
  | O => []
  | S k' => (be_bytes k' (n / 256) ++ [(n mod 256)%N])%list
  end.

(** ** The document store (pymongo's [Database])
    Collections keep their documents in insertion order.  [next_oid] is the
    generator of fresh identifiers; [fault], when set, is the error every
    operation raises because the server cannot be reached. *)
Record Store : Type := mkStore {
  colls : gmap string (list doc);
  next_oid : N;
  fault : option string
}.

(** [db[name]]: a collection that was never written to is empty. *)
Definition coll (st : Store) (name : string) : list doc :=
  default [] (colls st !! name).

Definition set_coll (st : Store) (name : string) (docs : list doc) : Store :=
  mkStore (<[name := docs]> (colls st)) (next_oid st) (fault st).

(** The handlers run in a state-and-exception monad over the module-level
    [db], which is [None] when no database is configured. *)
Definition M (A : Type) : Type := option Store -> result A * option Store.

Definition ret {A} (a : A) : M A := fun db => (Return a, db).
Definition raise {A} (e : exn) : M A := fun db => (Raise e, db).
Definition bind {A B} (m : M A) (k : A -> M B) : M B :=
  fun db => match m db with
            | (Return a, db') => k a db'
            | (Raise e, db') => (Raise e, db')
            end.
Definition lift {A} (r : result A) : M A := fun db => (r, db).

Notation "'let*' x := m 'in' k" := (bind m (fun x => k))
  (at level 10, x name, m at level 100, k at level 200).
Notation "m >> k" := (bind m (fun _ => k))
  (at level 100, k at level 200, right associativity).

(** An operation on [db[...]]: subscripting [None] is a [TypeError]; an
    unreachable server makes the driver raise. *)
Definition on_store {A} (op : Store -> A * Store) : M A :=
  fun db => match db with
            | None => (Raise TypeError, None)
            | Some st =>
                match fault st with
                | Some msg => (Raise (StoreError msg), Some st)
                | None => let '(a, st') := op st in (Return a, Some st')
                end
            end.

(** [db[name].count_documents({})] *)
Definition count_documents (name : string) : M nat :=
  on_store (fun st => (length (coll st name), st)).

(** [db[name].insert_one(d)]: the driver gives the document a fresh [_id]. *)
Definition insert_one (name : string) (d : doc) : M (list N) :=
  on_store (fun st =>
    let oid := be_bytes 12 (next_oid st) in
    (oid, mkStore (<[name := (coll st name ++ [<["_id" := VOid oid]> d])%list]> (colls st))
                  (next_oid st + 1)%N (fault st))).

(** Does the document match the filter [{"_id": oid}]? *)
Definition has_id (oid : list N) (d : doc) : bool :=
  match d !! "_id" with
  | Some (VOid o) => bool_decide (o = oid)
  | _ => false
  end.

(** [{"$set": fields}] applied to a document: the given fields are written,
    every other field of the document stays. *)
Definition apply_set (fields d : doc) : doc := fields ∪ d.

(** The server's part of [update_one] on a list of documents: the first
    match is updated; the result is [matched_count]. *)
Fixpoint update_first (oid : list N) (fields : doc) (docs : list doc) : nat * list doc :=
  match docs with
  | [] => (O, [])
  | d :: rest =>
      if has_id oid d then (1%nat, apply_set fields d :: rest)
      else let '(n, rest') := update_first oid fields rest in (n, d :: rest')
  end.

(** BSON has integers of at most eight bytes; the driver raises
    [OverflowError] when it encodes a document that holds a larger one. *)
Definition in_int64 (z : Z) : bool := (- 2 ^ 63 <=? z) && (z <? 2 ^ 63).

Fixpoint value_encodable (v : value) : bool :=
  match v with
  | VInt z => in_int64 z
  | VList l => forallb value_encodable l
  | _ => true
  end.

Definition doc_encodable (d : doc) : bool :=
  forallb (fun kv => value_encodable (snd kv)) (map_to_list d).

Definition bson_encode (d : doc) : result unit :=
  if doc_encodable d then Return tt else Raise OverflowError.

(** [db[name].update_one({"_id": oid}, {"$set": fields})]: with a
    connection at hand the driver encodes the command, which can overflow,
    and only then the server looks for a match. *)
Definition update_one (name : string) (oid : list N) (fields : doc) : M nat :=
  on_store (fun st => (tt, st)) >>
  lift (bson_encode fields) >>
  on_store (fun st =>
    let '(n, docs') := update_first oid fields (coll st name) in
    (n, if (n =? 0)%nat then st else set_coll st name docs')).

(** [delete_one({"_id": oid})]: the first match is removed; the result is
    [deleted_count]. *)
Fixpoint delete_first (oid : list N) (docs : list doc) : nat * list doc :=
  match docs with
  | [] => (O, [])
  | d :: rest =>
      if has_id oid d then (1%nat, rest)
      else let '(n, rest') := delete_first oid rest in (n, d :: rest')
  end.

Definition delete_one (name : string) (oid : list N) : M nat :=
  on_store (fun st =>
    let '(n, docs') := delete_first oid (coll st name) in
    (n, if (n =? 0)%nat then st else set_coll st name docs')).

(** [db.list_collection_names()] *)
Definition list_collection_names : M (list string) :=
  on_store (fun st => (map fst (map_to_list (colls st)), st)).

(** Comparison of two sort keys, ascending.  Kinds are ranked as BSON ranks
    them (null and missing, numbers, strings, arrays, object ids, booleans);
    inside a kind integers, strings and booleans are compared by value, and
    the other kinds are left in insertion order. *)
Definition bson_rank (v : option value) : N :=
  match v with
  | None | Some VNull => 1
  | Some (VInt _) => 2
  | Some (VStr _) => 3
  | Some (VList _) => 5
  | Some (VOid _) => 7
  | Some (VBool _) => 8
  end%N.

Definition bson_leb (a b : option value) : bool :=
  if (bson_rank a <? bson_rank b)%N then true
  else if (bson_rank b <? bson_rank a)%N then false
  else match a, b with
       | Some (VInt x), Some (VInt y) => x <=? y
       | Some (VStr s), Some (VStr t) => String.leb s t
       | Some (VBool x), Some (VBool y) => implb x y
       | _, _ => true
       end.

(** Stable insertion sort: an element goes in front of the first element that
    is not smaller, so equal keys keep their order. *)
Fixpoint insert_by {A} (leb : A -> A -> bool) (x : A) (l : list A) : list A :=
  match l with
  | [] => [x]
  | y :: l' => if leb x y then x :: y :: l' else y :: insert_by leb x l'
  end.

Fixpoint sort_by {A} (leb : A -> A -> bool) (l : list A) : list A :=
  match l with
  | [] => []
  | x :: l' => insert_by leb x (sort_by leb l')
  end.

(** [db[name].find({}).sort(key, 1)] *)
Definition find_sorted (name key : string) : M (list doc) :=
  on_store (fun st =>
    (sort_by (fun d1 d2 => bson_leb (d1 !! key) (d2 !! key)) (coll st name), st)).

(** ** schemas.py *)

Class BaseModel (A : Type) := model_dump : A -> doc.

Record Project : Type := mkProject {
  name : string;
  description : string;
  stack : list string;
  github : option string;
  live : option string;
  featured : bool;
  order : Z
}.

Record Message : Type := mkMessage {
  m_name : string;
  m_email : string;
  m_message : string
}.

Definition opt_value (o : option string) : value :=
  match o with Some s => VStr s | None => VNull end.

#[global] Instance Project_model : BaseModel Project := fun p =>
  <["name" := VStr (name p)]>
  (<["description" := VStr (description p)]>
  (<["stack" := VList (map VStr (stack p))]>
  (<["github" := opt_value (github p)]>
  (<["live" := opt_value (live p)]>
  (<["featured" := VBool (featured p)]>
  (<["order" := VInt (order p)]> ∅)))))).

#[global] Instance Message_model : BaseModel Message := fun m =>
  <["name" := VStr (m_name m)]>
  (<["email" := VStr (m_email m)]>
  (<["message" := VStr (m_message m)]> ∅)).

(** Field validators of pydantic, in their strict form: a value of the
    declared type is taken as it is, anything else is a [ValidationError]. *)
Definition field_str (kw : doc) (k : string) : result string :=
  match kw !! k with
  | Some (VStr s) => Return s
  | _ => Raise ValidationError
  end.

Definition field_opt_str (kw : doc) (k : string) : result (option string) :=
  match kw !! k with
  | None | Some VNull => Return None
  | Some (VStr s) => Return (Some s)
  | _ => Raise ValidationError
  end.

Fixpoint all_str (l : list value) : result (list string) :=
  match l with
  | [] => Return []
  | VStr s :: l' => rbind (all_str l') (fun r => Return (s :: r))
  | _ :: _ => Raise ValidationError
  end.

Definition field_str_list (kw : doc) (k : string) : result (list string) :=
  match kw !! k with
  | None => Return []
  | Some (VList l) => all_str l
  | _ => Raise ValidationError
  end.

Definition field_bool (kw : doc) (k : string) (dflt : bool) : result bool :=
  match kw !! k with
  | None => Return dflt
  | Some (VBool b) => Return b
  | _ => Raise ValidationError
  end.

Definition field_int (kw : doc) (k : string) (dflt : Z) : result Z :=
  match kw !! k with
  | None => Return dflt
  | Some (VInt z) => Return z
  | _ => Raise ValidationError
  end.

(** [Project] built from keyword arguments: [name] and [description] are
    required, the rest has defaults; keys that are not fields are ignored. *)
Definition ProjectSchema (kw : doc) : result Project :=
  rbind (field_str kw "name") (fun n =>
  rbind (field_str kw "description") (fun d =>
  rbind (field_str_list kw "stack") (fun s =>
  rbind (field_opt_str kw "github") (fun g =>
  rbind (field_opt_str kw "live") (fun l =>
  rbind (field_bool kw "featured" false) (fun f =>
  rbind (field_int kw "order" 0) (fun o =>
  Return (mkProject n d s g l f o)))))))).

(** ** main.py: projects *)

(** [os.getenv]: the process environment *)
Abbreviation environ := (gmap string string).

(** [ObjectIdStr.validate(v)] *)
Definition ObjectIdStr_validate (v : value) : result string :=
  match v with
  | VOid o => Return (oid_str o)
  | VStr s => if ObjectId_is_valid s then Return s else Raise ValueError
  | _ => Raise ValueError
  end.

(** [ProjectOut]: the [id] (alias [_id]) and the seven fields of [Project] *)
Record ProjectOut : Type := mkProjectOut {
  id : string;
  out_fields : Project
}.

(** pydantic 2, the version whose [model_dump] and [populate_by_name] the
    code uses, runs a validator taken from [__get_validators__] with two
    arguments, the value and the validation info.  A validator written for
    one argument, as the classmethod [ObjectIdStr.validate] is, cannot be
    called that way: the call raises [TypeError] before its body runs. *)
Definition call_field_validator {A B} (parameters : nat) (validator : A -> result B)
    (v : A) : result B :=
  if (parameters =? 2)%nat then validator v else Raise TypeError.

(** [ProjectOut] built from a stored document; [populate_by_name] lets the
    key [id] stand in when [_id] is missing.  The [id] field comes first: a
    [ValueError] of its validator becomes a [ValidationError], any other
    exception of the validator leaves the constructor as it is, and a missing
    [id] is a [ValidationError] whatever the other fields are. *)
Definition ProjectOut_validate (i : doc) : result ProjectOut :=
  match (match i !! "_id" with Some v => Some v | None => i !! "id" end) with
  | None => Raise ValidationError
  | Some v =>
      match call_field_validator 1 ObjectIdStr_validate v with
      | Raise ValueError => Raise ValidationError
      | Raise e => Raise e
      | Return s => rbind (ProjectSchema i) (fun p => Return (mkProjectOut s p))
      end
  end.

Fixpoint map_result {A B} (f : A -> result B) (l : list A) : result (list B) :=
  match l with
  | [] => Return []
  | x :: l' => rbind (f x) (fun y => rbind (map_result f l') (fun r => Return (y :: r)))
  end.

Definition dict (l : list (string * value)) : doc := list_to_map l.

Definition strs (l : list string) : value := VList (map VStr l).

Definition SEED_PROJECTS : list doc :=
  [ dict [ ("name", VStr "Sarepay");
           ("description", VStr "Multi-tenant payment processing system for merchants.");
           ("stack", strs ["PHP"; "Laravel"; "MySQL"; "Redis"; "Docker"; "AWS"]);
           ("github", VStr "https://github.com/devwaleh/sarepay");
           ("featured", VBool true);
           ("order", VInt 1) ];
    dict [ ("name", VStr "Piper Backoffice");
           ("description", VStr "Admin dashboard for transaction monitoring and settlements.");
           ("stack", strs ["Laravel"; "MySQL"; "Redis"; "Tailwind"]);
           ("github", VStr "https://github.com/devwaleh/piper-backoffice");
           ("featured", VBool true);
           ("order", VInt 2) ];
    dict [ ("name", VStr "Gridman");
           ("description", VStr "Distributed microservice for real-time wallet transactions.");
           ("stack", strs ["Node.js"; "Express"; "MongoDB"; "Docker"; "Microservices"]);
           ("github", VStr "https://github.com/devwaleh/gridman");
           ("featured", VBool false);
           ("order", VInt 3) ];
    dict [ ("name", VStr "Monitraka");
           ("description", VStr "AI-powered transaction anomaly detector.");
           ("stack", strs ["Python"; "FastAPI"; "Scikit-learn"; "Redis"]);
           ("github", VStr "https://github.com/devwaleh/monitraka");
           ("featured", VBool false);
           ("order", VInt 4) ] ].

(** Modelled from the spec: [database.create_document], whose module is not
    among the sources.  The spec's store client offers a collection-scoped
    insert that gives the record a unique, string-renderable identifier, and
    creation "inserts it, returns the newly assigned id": the model's fields
    are inserted as one document and the string form of the fresh [_id] is
    returned.  Without a database there is nothing to insert into and the
    call raises. *)
Definition create_document {A} `{BaseModel A} (collection_name : string) (data : A)
  : M string :=
  fun db => match db with
            | None => (Raise (StoreError "Database not available"), None)
            | Some _ =>
                (let* oid := insert_one collection_name (model_dump data) in
                 ret (oid_str oid)) db
            end.

Definition db_is_None : M bool :=
  fun db => (Return (match db with None => true | Some _ => false end), db).

Fixpoint for_each {A} (l : list A) (body : A -> M unit) : M unit :=
  match l with
  | [] => ret tt
  | x :: l' => body x >> for_each l' body
  end.

Definition ensure_seed_projects : M unit :=
  let* none := db_is_None in
  if none then ret tt
  else
    let* count := count_documents "project" in
    if (count =? 0)%nat
    then for_each SEED_PROJECTS (fun p =>
           let* schema := lift (ProjectSchema p) in
           create_document "project" schema >> ret tt)
    else ret tt.

Definition list_projects : M (list ProjectOut) :=
  ensure_seed_projects >>
  let* items := find_sorted "project" "order" in
  lift (map_result ProjectOut_validate items).

(** The reply is the value of the key [_id]. *)
Definition create_project (project : Project) : M string :=
  let* _id := create_document "project" project in
  ret _id.

(** The reply is the value of the key [updated]; [ObjectId(project_id)] cannot
    raise once [is_valid] has accepted the string. *)
Definition update_project (project_id : string) (project : Project) : M bool :=
  if negb (ObjectId_is_valid project_id) then raise (HTTPException 400 "Invalid id")
  else
    let* oid := lift (ObjectId project_id) in
    let* matched_count := update_one "project" oid (model_dump project) in
    if (matched_count =? 0)%nat then raise (HTTPException 404 "Not found")
    else ret true.

(** The reply is the value of the key [deleted]. *)
Definition delete_project (project_id : string) : M bool :=
  if negb (ObjectId_is_valid project_id) then raise (HTTPException 400 "Invalid id")
  else
    let* oid := lift (ObjectId project_id) in
    let* deleted_count := delete_one "project" oid in
    if (deleted_count =? 0)%nat then raise (HTTPException 404 "Not found")
    else ret true.

(** [dependencies=[Depends(dep)]]: the dependency runs before the endpoint
    function, and its exception is the response. *)
Definition Depends {A} (dep : result unit) (endpoint : M A) : M A :=
  lift dep >> endpoint.

Definition ADMIN_TOKEN (env : environ) : string := default "" (env !! "ADMIN_TOKEN").

(** The three gated routes, as the framework runs them for a request whose
    body already has the shape of [Project]. *)
Definition post_projects (env : environ) (authorization : option string)
    (project : Project) : M string :=
  Depends (require_admin (ADMIN_TOKEN env) authorization) (create_project project).

Definition put_project (env : environ) (authorization : option string)
    (project_id : string) (project : Project) : M bool :=
  Depends (require_admin (ADMIN_TOKEN env) authorization)
          (update_project project_id project).

Definition delete_project_route (env : environ) (authorization : option string)
    (project_id : string) : M bool :=
  Depends (require_admin (ADMIN_TOKEN env) authorization) (delete_project project_id).

(** The status line of the response the framework sends. *)
Definition status_of {A} (r : result A) : Z :=
  match r with
  | Return _ => 200
  | Raise (HTTPException c _) => c
  | Raise RequestValidationError => 422
  | Raise _ => 500
  end.

(** ** main.py: contact *)














(** ** main.py: the now-playing proxy *)

(** A Python [float], by its parts *)
Inductive pyfloat : Type :=
  | FNan
  | FInf (negative : bool)
  | FFinite (negative : bool) (mantissa : N) (exponent : Z).

(** The Python objects [json.loads] builds; a [dict] keeps its items in
    order, one per key. *)
Inductive pyval : Type :=
  | PNone
  | PBool (b : bool)
  | PInt (z : Z)
  | PFloat (f : pyfloat)
  | PStr (s : string)
  | PList (l : list pyval)
  | PDict (d : list (string * pyval)).

(** [bool(v)] *)
Definition truthy (v : pyval) : bool :=
  match v with
  | PNone => false
  | PBool b => b
  | PInt z => negb (z =? 0)
  | PFloat (FFinite _ 0%N _) => false
  | PFloat _ => true
  | PStr s => str_truthy s
  | PList l => match l with [] => false | _ => true end
  | PDict d => match d with [] => false | _ => true end
  end.

Fixpoint assoc (k : string) (d : list (string * pyval)) : option pyval :=
  match d with
  | [] => None
  | (k', v) :: d' => if String.eqb k' k then Some v else assoc k d'
  end.

(** [v.get(k, dflt)]: only a [dict] has the method. *)
Definition py_get (v : pyval) (k : string) (dflt : pyval) : result pyval :=
  match v with
  | PDict d => Return (default dflt (assoc k d))
  | _ => Raise AttributeError
  end.

Fixpoint chars (s : string) : list pyval :=
  match s with
  | EmptyString => []
  | String c s' => PStr (String c EmptyString) :: chars s'
  end.

(** [for a in v]: the elements of a list, the characters of a string, the
    keys of a dict; nothing else is iterable. *)
Definition py_iter (v : pyval) : result (list pyval) :=
  match v with
  | PList l => Return l
  | PStr s => Return (chars s)
  | PDict d => Return (map (fun kv => PStr (fst kv)) d)
  | _ => Raise TypeError
  end.

(** [v[0]] *)
Definition py_first (v : pyval) : result pyval :=
  match v with
  | PList (x :: _) => Return x
  | PList [] => Raise IndexError
  | PStr (String c _) => Return (PStr (String c EmptyString))
  | PStr EmptyString => Raise IndexError
  | PDict _ => Raise KeyError
  | _ => Raise TypeError
  end.

(** [sep.join(l)]: every element has to be a [str]. *)
Fixpoint str_join (sep : string) (l : list pyval) : result string :=
  match l with
  | [] => Return ""
  | [PStr s] => Return s
  | PStr s :: l' => rbind (str_join sep l') (fun r => Return (s ++ sep ++ r))
  | _ :: _ => Raise TypeError
  end.

(** What a call of the requests library comes to: an exception, or a response
    with its status and what [.json()] gives for its body. *)
Inductive http_outcome : Type :=
  | NetworkError
  | HttpResponse (status_code : Z) (json : result pyval).

Definition requests_call (o : http_outcome) : result (Z * result pyval) :=
  match o with
  | NetworkError => Raise RequestException
  | HttpResponse c j => Return (c, j)
  end.

(** The music provider: the token endpoint answers the posted refresh token,
    client id and client secret; the currently-playing endpoint answers the
    bearer token of the request. *)
Record Provider : Type := mkProvider {
  token_endpoint : string -> string -> string -> http_outcome;
  currently_playing : pyval -> http_outcome
}.

Definition SPOTIFY_CLIENT_ID (env : environ) : option string := env !! "SPOTIFY_CLIENT_ID".
Definition SPOTIFY_CLIENT_SECRET (env : environ) : option string := env !! "SPOTIFY_CLIENT_SECRET".
Definition SPOTIFY_REFRESH_TOKEN (env : environ) : option string := env !! "SPOTIFY_REFRESH_TOKEN".

Definition get_spotify_access_token (env : environ) (P : Provider) : result pyval :=
  match SPOTIFY_CLIENT_ID env, SPOTIFY_CLIENT_SECRET env, SPOTIFY_REFRESH_TOKEN env with
  | Some cid, Some secret, Some refresh =>
      if negb (str_truthy cid && str_truthy secret && str_truthy refresh)
      then Return PNone
      else
        try_except
          (rbind (requests_call (token_endpoint P refresh cid secret)) (fun resp =>
             if fst resp =? 200
             then rbind (snd resp) (fun body => py_get body "access_token" PNone)
             else Return PNone))
          (Return PNone)
  | _, _, _ => Return PNone
  end.

Definition not_playing : pyval := PDict [("isPlaying", PBool false)].

Definition now_playing (env : environ) (P : Provider) : result pyval :=
  rbind (get_spotify_access_token env P) (fun token =>
  if negb (truthy token) then Return not_playing
  else
    try_except
      (rbind (requests_call (currently_playing P token)) (fun r =>
       if fst r =? 204 then Return not_playing
       else if negb (fst r =? 200) then Return not_playing
       else
         rbind (snd r) (fun data =>
         rbind (py_get data "is_playing" (PBool false)) (fun is_playing =>
         rbind (py_get data "item" PNone) (fun item0 =>
         let item := if truthy item0 then item0 else PDict [] in
         if negb (truthy item) then Return not_playing
         else
           rbind (py_get item "artists" (PList [])) (fun artists_v =>
           rbind (py_iter artists_v) (fun artist_items =>
           rbind (map_result (fun a => py_get a "name" PNone) artist_items) (fun names =>
           rbind (str_join ", " names) (fun artists =>
           rbind (py_get item "album" (PDict [])) (fun album =>
           rbind (py_get album "images" (PList [])) (fun images =>
           rbind (if truthy images
                  then rbind (py_first images) (fun i0 => py_get i0 "url" PNone)
                  else Return PNone) (fun image =>
           rbind (py_get item "name" PNone) (fun title =>
           rbind (py_get album "name" PNone) (fun album_name =>
           rbind (py_get item "external_urls" (PDict [])) (fun urls =>
           rbind (py_get urls "spotify" PNone) (fun song_url =>
           Return (PDict [ ("isPlaying", PBool (truthy is_playing));
                           ("title", title);
                           ("artist", PStr artists);
                           ("album", album_name);
                           ("albumImageUrl", image);
                           ("songUrl", song_url) ])))))))))))))))))
      (Return not_playing)).

(** ** main.py: diagnostics *)

Record Diagnostics : Type := mkDiagnostics {
  backend : string;
  database : string;
  database_url : option string;
  database_name : option string;
  connection_status : string;
  collections : list string
}.

(** [s[:n]] *)
Fixpoint str_take (n : nat) (s : string) : string :=
  match n, s with
  | S n', String c s' => String c (str_take n' s')
  | _, _ => EmptyString
  end.

(** [str(e)] *)
Definition exn_str (e : exn) : string :=
  match e with
  | HTTPException _ detail => detail
  | StoreError msg => msg
  | _ => ""
  end.

(** The text literals are the UTF-8 bytes of the source's.  The outer
    [except] of the source has nothing to catch: the one call that can raise
    is inside the inner [try]. *)
Definition test_database (env : environ) : M Diagnostics :=
  fun db =>
    let response :=
      mkDiagnostics "✅ Running" "❌ Not Available" None None "Not Connected" [] in
    match db with
    | None => (Return response, db)
    | Some _ =>
        let url := if opt_truthy (env !! "DATABASE_URL") then "✅ Set" else "❌ Not Set" in
        let dbname := if opt_truthy (env !! "DATABASE_NAME")
                      then default "" (env !! "DATABASE_NAME") else "Unknown" in
        match list_collection_names db with
        | (Return names, db') =>
            (Return (mkDiagnostics (backend response) "✅ Connected & Working"
                       (Some url) (Some dbname) (connection_status response)
                       (take 10 names)), db')
        | (Raise e, db') =>
            (Return (mkDiagnostics (backend response)
                       ("⚠️ Connected but Error: " ++ str_take 50 (exn_str e))
                       (Some url) (Some dbname) (connection_status response)
                       (collections response)), db')
        end
    end.

(** ** Statements about the store *)

(** An update or delete of [project_id] went from [db] to [db']: either
    nothing changed, or one project record whose [_id] is the given
    identifier was removed or replaced by a record with the same [_id], every
    other project record staying at its place, and every other collection,
    the identifier generator and the connection staying as they were. *)
Definition only_record_touched (project_id : string) (db db' : option Store) : Prop :=
  db' = db \/
  exists st st' oid pre d post,
    db = Some st /\ db' = Some st' /\
    ObjectId project_id = Return oid /\ has_id oid d = true /\
    coll st "project" = (pre ++ d :: post)%list /\
    (coll st' "project" = (pre ++ post)%list \/
     exists d', d' !! "_id" = d !! "_id" /\
                coll st' "project" = (pre ++ d' :: post)%list) /\
    (forall name, name <> "project" -> colls st' !! name = colls st !! name) /\
    next_oid st' = next_oid st /\ fault st' = fault st.

(** ** Statements about the listing *)

(** The comparison [find_sorted] uses for the key [order] *)
Definition order_leb (d1 d2 : doc) : bool :=
  bson_leb (d1 !! "order") (d2 !! "order").

(** The seed set as [Project] objects: the seed dicts after the schema has
    filled in its defaults *)
Definition SEED_MODELS : list Project :=
  [ mkProject "Sarepay" "Multi-tenant payment processing system for merchants."
      ["PHP"; "Laravel"; "MySQL"; "Redis"; "Docker"; "AWS"]
      (Some "https://github.com/devwaleh/sarepay") None true 1;
    mkProject "Piper Backoffice" "Admin dashboard for transaction monitoring and settlements."
      ["Laravel"; "MySQL"; "Redis"; "Tailwind"]
      (Some "https://github.com/devwaleh/piper-backoffice") None true 2;
    mkProject "Gridman" "Distributed microservice for real-time wallet transactions."
      ["Node.js"; "Express"; "MongoDB"; "Docker"; "Microservices"]
      (Some "https://github.com/devwaleh/gridman") None false 3;
    mkProject "Monitraka" "AI-powered transaction anomaly detector."
      ["Python"; "FastAPI"; "Scikit-learn"; "Redis"]
      (Some "https://github.com/devwaleh/monitraka") None false 4 ].

(** The documents that creating the projects [ps] one after the other
    stores, the first with the identifier number [n] *)
Fixpoint stored_as (n : N) (ps : list Project) : list doc :=
  match ps with
  | [] => []
  | p :: ps' => <["_id" := VOid (be_bytes 12 n)]> (model_dump p) :: stored_as (n + 1) ps'
  end.

(** The project collection as a listing finds it once seeding has run *)
Definition listed_docs (st : Store) : list doc :=
  match coll st "project" with
  | [] => stored_as (next_oid st) SEED_MODELS
  | docs => docs
  end.

(** ** Statements about the contact reply *)







(** ** Statements about the now-playing proxy *)

Definition credentials_set (env : environ) : bool :=
  opt_truthy (SPOTIFY_CLIENT_ID env) && opt_truthy (SPOTIFY_CLIENT_SECRET env)
  && opt_truthy (SPOTIFY_REFRESH_TOKEN env).

(** The token request the proxy sends for this environment *)
Definition token_request (env : environ) (P : Provider) : option http_outcome :=
  match SPOTIFY_CLIENT_ID env, SPOTIFY_CLIENT_SECRET env, SPOTIFY_REFRESH_TOKEN env with
  | Some cid, Some secret, Some refresh => Some (token_endpoint P refresh cid secret)
  | _, _, _ => None
  end.

(** The provider behaviours under which the proxy has nothing to report: a
    credential is unset; the token refresh fails (no connection, a status
    other than 200, a body that is not JSON or gives no usable token); the
    playback call fails (no connection, 204 or another status than 200, a
    body that is not JSON) or its body has no playable item. *)
Inductive degraded (env : environ) (P : Provider) : Prop :=
  | credentials_unset :
      credentials_set env = false -> degraded env P
  | refresh_unreachable :
      token_request env P = Some NetworkError -> degraded env P
  | refresh_status c j :
      token_request env P = Some (HttpResponse c j) -> c <> 200 -> degraded env P
  | refresh_not_json e :
      token_request env P = Some (HttpResponse 200 (Raise e)) -> degraded env P
  | refresh_no_token body :
      token_request env P = Some (HttpResponse 200 (Return body)) ->
      (forall t, py_get body "access_token" PNone = Return t -> truthy t = false) ->
      degraded env P
  | playback_unreachable token :
      get_spotify_access_token env P = Return token ->
      currently_playing P token = NetworkError -> degraded env P
  | playback_status token c j :
      get_spotify_access_token env P = Return token ->
      currently_playing P token = HttpResponse c j -> c <> 200 -> degraded env P
  | playback_not_json token e :
      get_spotify_access_token env P = Return token ->
      currently_playing P token = HttpResponse 200 (Raise e) -> degraded env P
  | playback_no_item token data :
      get_spotify_access_token env P = Return token ->
      currently_playing P token = HttpResponse 200 (Return data) ->
      (forall item, py_get data "item" PNone = Return item -> truthy item = false) ->
      degraded env P.

(** ** Sample data used by the examples *)

Definition demo_env : environ := {["ADMIN_TOKEN" := "s3cret"]}.
Definition demo_project : Project :=
  mkProject "Atlas" "Route planner" ["Rust"] None (Some "https://atlas.example") true 7.
Definition empty_store : Store := mkStore ∅ 0 None.

(** A store whose one project record carries a field that is not in the
    schema, next to the seven that are *)
Definition legacy_record : doc :=
  <["_id" := VOid (be_bytes 12 0)]>
    (<["notes" := VStr "legacy"]>
       (model_dump (mkProject "Old" "Before the update" [] None None false 1))).

Definition legacy_store : Store :=
  mkStore {["project" := [legacy_record]]} 1 None.

(** Three projects stored out of order, two of them with the same [order] *)
Definition shuffled_projects : list Project :=
  [ mkProject "Second" "first of the two at 2" [] None None false 2;
    mkProject "First" "the one at 1" [] None None false 1;
    mkProject "Third" "second of the two at 2" [] None None false 2 ].

Definition shuffled_store : Store :=
  mkStore {["project" := stored_as 0 shuffled_projects]} 3 None.


Definition spotify_env : environ :=
  <["SPOTIFY_CLIENT_ID" := "cid"]>
  (<["SPOTIFY_CLIENT_SECRET" := "shh"]>
  (<["SPOTIFY_REFRESH_TOKEN" := "again"]> ∅)).

Definition token_body : pyval := PDict [("access_token", PStr "tok")].

(** A provider with nothing playing, and one playing a track by two artists *)
Definition idle_provider : Provider :=
  mkProvider (fun _ _ _ => HttpResponse 200 (Return token_body))
             (fun _ => HttpResponse 204 (Raise ValueError)).

Definition track : pyval :=
  PDict [ ("is_playing", PBool true);
          ("item", PDict [ ("name", PStr "Song");
                           ("artists", PList [ PDict [("name", PStr "Ann")];
                                               PDict [("name", PStr "Bob")] ]);
                           ("album", PDict [ ("name", PStr "LP");
                                             ("images", PList [ PDict [("url", PStr "big.png")];
                                                                PDict [("url", PStr "small.png")] ]) ]);
                           ("external_urls", PDict [("spotify", PStr "https://open/song")]) ]) ].

Definition playing_provider : Provider :=
  mkProvider (fun _ _ _ => HttpResponse 200 (Return token_body))
             (fun _ => HttpResponse 200 (Return track)).

(** Two environments with both database settings made, to different values *)
Definition alpha_env : environ :=
  <["DATABASE_URL" := "mongodb://alpha"]> (<["DATABASE_NAME" := "alpha"]> ∅).
Definition beta_env : environ :=
  <["DATABASE_URL" := "mongodb://beta"]> (<["DATABASE_NAME" := "beta"]> ∅).

(** Two stores that cannot be reached; the driver's error names the host *)
Definition alpha_down : Store :=
  mkStore ∅ 0 (Some "alpha.example:27017: [Errno 111] Connection refused").
Definition beta_down : Store :=
  mkStore ∅ 0 (Some "beta.example:27017: [Errno 111] Connection refused").

(** * Properties *)

(** ** The access gate *)

Example require_admin_ok :
  require_admin "s3cret" (Some "BeArEr s3cret") = Return tt.
Proof. reflexivity. Qed.

Example require_admin_wrong :
  require_admin "s3cret" (Some "Bearer  s3cret") = Raise Unauthorized.
Proof. reflexivity. Qed.

Example require_admin_unset :
  require_admin "" (Some "Bearer ") = Raise Unauthorized.
Proof. reflexivity. Qed.

Lemma lower_char_space c : lower_char c = " "%char -> c = " "%char.
Proof.
  destruct c as [[] [] [] [] [] [] [] []]; vm_compute; intros H;
    first [reflexivity | discriminate H].
Qed.

Lemma lower_char_letter c x :
  lower_char c = x -> x <> " "%char -> Ascii.eqb c " " = false.
Proof.
  intros H Hx. apply Ascii.eqb_neq. intros ->. apply Hx. rewrite <- H. reflexivity.
Qed.

Lemma append_nil (t : string) : "" ++ t = t.
Proof. reflexivity. Qed.

Lemma append_cons c (s t : string) : String c s ++ t = String c (s ++ t).
Proof. reflexivity. Qed.

Ltac string_app := repeat (rewrite append_cons in * || rewrite append_nil in * ).

Lemma str_lower_app s t : str_lower (s ++ t) = str_lower s ++ str_lower t.
Proof.
  induction s as [|c s IH]; string_app; simpl; string_app;
    [reflexivity | now rewrite IH].
Qed.

Lemma startswith_inv s p : startswith s p = true -> exists t, s = p ++ t.
Proof.
  revert s. induction p as [|b p IH]; intros s H.
  - now exists s.
  - destruct s as [|a s]; simpl in H; [discriminate H|].
    destruct (Ascii.eqb_spec a b) as [->|]; [|discriminate H].
    destruct (IH _ H) as [t ->]. exists t. now string_app.
Qed.

(** A prefix that lower-cases to ["bearer "] is six characters other than a
    space followed by a space, so splitting at the first space cuts right
    behind it. *)
Lemma bearer_prefix_split prefix rest :
  str_lower prefix = "bearer " ->
  str_split1 " " (prefix ++ rest) = [str_take 6 prefix; rest] /\ String.length prefix = 7%nat.
Proof.
  intros H.
  destruct prefix as [|c1 [|c2 [|c3 [|c4 [|c5 [|c6 [|c7 [|c8 p]]]]]]]]; try discriminate H.
  simpl in H. injection H as H1 H2 H3 H4 H5 H6 H7.
  apply lower_char_space in H7. subst c7.
  string_app. simpl.
  rewrite (lower_char_letter _ _ H1), (lower_char_letter _ _ H2),
    (lower_char_letter _ _ H3), (lower_char_letter _ _ H4),
    (lower_char_letter _ _ H5), (lower_char_letter _ _ H6) by discriminate.
  simpl. split; reflexivity.
Qed.

Lemma lower_split a :
  startswith (str_lower a) "bearer " = true ->
  exists prefix rest, a = prefix ++ rest /\ str_lower prefix = "bearer ".
Proof.
  intros H.
  destruct a as [|c1 [|c2 [|c3 [|c4 [|c5 [|c6 [|c7 rest]]]]]]];
    simpl in H;
    repeat match type of H with
           | (if Ascii.eqb ?x ?y then _ else _) = true =>
               destruct (Ascii.eqb_spec x y) as [?|]; [|discriminate H]
           end;
    try discriminate H.
  exists (String c1 (String c2 (String c3 (String c4 (String c5 (String c6 (String c7 ""))))))), rest.
  split; [now string_app|].
  simpl. congruence.
Qed.

(** The token the gate compares with the secret *)
Lemma require_admin_token secret a prefix rest :
  a = prefix ++ rest -> str_lower prefix = "bearer " ->
  require_admin secret (Some a) =
    if negb (str_truthy secret) || negb (String.eqb rest secret)
    then Raise Unauthorized else Return tt.
Proof.
  intros -> Hp. unfold require_admin.
  destruct (bearer_prefix_split prefix rest Hp) as [Hs Hl].
  assert (Ht : str_truthy (prefix ++ rest) = true).
  { destruct prefix; [discriminate Hl | reflexivity]. }
  rewrite Ht, str_lower_app, Hp. string_app. simpl startswith.
  cbn [andb]. rewrite Hs. now destruct (str_lower rest).
Qed.

Lemma require_admin_no_bearer secret authorization :
  (forall a, authorization = Some a -> startswith (str_lower a) "bearer " = false) ->
  require_admin secret authorization = Raise Unauthorized.
Proof.
  intros H. unfold require_admin.
  destruct authorization as [a|].
  - rewrite (H a eq_refl), andb_false_r. simpl.
    destruct secret; reflexivity.
  - simpl. destruct secret; reflexivity.
Qed.

Lemma require_admin_iff secret authorization :
  require_admin secret authorization = Return tt <->
  header_authorizes secret authorization.
Proof.
  split.
  - intros H. destruct authorization as [a|].
    + destruct (startswith (str_lower a) "bearer ") eqn:E.
      * destruct (lower_split a E) as (prefix & rest & Ha & Hp).
        rewrite (require_admin_token secret a prefix rest Ha Hp) in H.
        destruct secret as [|c secret]; [discriminate H|].
        destruct (String.eqb_spec rest (String c secret)) as [Hr|];
          [|discriminate H].
        split; [discriminate|]. exists a, prefix. now rewrite <- Hr.
      * rewrite require_admin_no_bearer in H; [discriminate H|].
        now intros ? [= <-].
    + rewrite require_admin_no_bearer in H; [discriminate H | discriminate].
  - intros (Hs & a & prefix & -> & Ha & Hp).
    rewrite (require_admin_token secret a prefix secret Ha Hp).
    rewrite String.eqb_refl. destruct secret; [contradiction | reflexivity].
Qed.

Lemma require_admin_cases secret authorization :
  require_admin secret authorization = Return tt \/
  require_admin secret authorization = Raise Unauthorized.
Proof.
  destruct authorization as [a|].
  - destruct (startswith (str_lower a) "bearer ") eqn:E.
    + destruct (lower_split a E) as (prefix & rest & Ha & Hp).
      rewrite (require_admin_token secret a prefix rest Ha Hp).
      destruct (_ || _); auto.
    + right. apply require_admin_no_bearer. now intros ? [= <-].
  - right. apply require_admin_no_bearer. discriminate.
Qed.

Lemma Depends_denied {A} dep (endpoint : M A) db :
  dep = Raise Unauthorized -> Depends dep endpoint db = (Raise Unauthorized, db).
Proof. now intros ->. Qed.

Lemma Depends_granted {A} dep (endpoint : M A) db :
  dep = Return tt -> Depends dep endpoint db = endpoint db.
Proof. now intros ->. Qed.

(** C1.  A request to a gated route (create, update, delete) passes the gate
    exactly when a non-empty secret is configured and the Authorization header
    is a prefix that lower-cases to "bearer " followed by the secret itself.
    When it does not pass, the route answers 401 and the store is left as it
    was; when it passes, the route is the endpoint function. *)
Theorem gate_guards_mutations (env : environ) (authorization : option string) :
  (require_admin (ADMIN_TOKEN env) authorization = Return tt <->
   header_authorizes (ADMIN_TOKEN env) authorization) /\
  (~ header_authorizes (ADMIN_TOKEN env) authorization ->
   forall (db : option Store) (project : Project) (project_id : string),
     post_projects env authorization project db
       = (Raise (HTTPException 401 "Unauthorized"), db) /\
     put_project env authorization project_id project db
       = (Raise (HTTPException 401 "Unauthorized"), db) /\
     delete_project_route env authorization project_id db
       = (Raise (HTTPException 401 "Unauthorized"), db)) /\
  (header_authorizes (ADMIN_TOKEN env) authorization ->
   forall (db : option Store) (project : Project) (project_id : string),
     post_projects env authorization project db = create_project project db /\
     put_project env authorization project_id project db
       = update_project project_id project db /\
     delete_project_route env authorization project_id db
       = delete_project project_id db).
Proof.
  split; [apply require_admin_iff|]. split.
  - intros Hn db project project_id.
    assert (Hd : require_admin (ADMIN_TOKEN env) authorization = Raise Unauthorized).
    { destruct (require_admin_cases (ADMIN_TOKEN env) authorization) as [H|H];
        [|exact H]. now apply require_admin_iff in H. }
    unfold post_projects, put_project, delete_project_route.
    repeat split; now apply Depends_denied.
  - intros Hy db project project_id.
    apply require_admin_iff in Hy.
    unfold post_projects, put_project, delete_project_route.
    repeat split; now apply Depends_granted.
Qed.

Lemma gate_guards_mutations_witness :
  ~ header_authorizes (ADMIN_TOKEN demo_env) (Some "Bearer wrong") /\
  post_projects demo_env (Some "Bearer wrong") demo_project (Some empty_store)
    = (Raise (HTTPException 401 "Unauthorized"), Some empty_store) /\
  header_authorizes (ADMIN_TOKEN demo_env) (Some "bearer s3cret") /\
  fst (post_projects demo_env (Some "bearer s3cret") demo_project (Some empty_store))
    = Return "000000000000000000000000".
Proof.
  destruct (gate_guards_mutations demo_env (Some "Bearer wrong")) as (Hiff & Hdeny & _).
  destruct (gate_guards_mutations demo_env (Some "bearer s3cret")) as (Hiff' & _ & Hok).
  assert (Hn : ~ header_authorizes (ADMIN_TOKEN demo_env) (Some "Bearer wrong")).
  { intros Hh. apply Hiff in Hh.
    change (require_admin (ADMIN_TOKEN demo_env) (Some "Bearer wrong"))
      with (@Raise unit Unauthorized) in Hh.
    discriminate Hh. }
  assert (Hy : header_authorizes (ADMIN_TOKEN demo_env) (Some "bearer s3cret")).
  { apply Hiff'. reflexivity. }
  split; [exact Hn|]. split; [apply (Hdeny Hn (Some empty_store) demo_project "")|].
  split; [exact Hy|].
  destruct (Hok Hy (Some empty_store) demo_project "") as (-> & _).
  reflexivity.
Defined.

(** ** Update and delete: the identifier is checked behind the gate *)

Lemma update_project_invalid_id project_id project db :
  ObjectId_is_valid project_id = false ->
  update_project project_id project db = (Raise (HTTPException 400 "Invalid id"), db).
Proof. intros H. unfold update_project. now rewrite H. Qed.

Lemma delete_project_invalid_id project_id db :
  ObjectId_is_valid project_id = false ->
  delete_project project_id db = (Raise (HTTPException 400 "Invalid id"), db).
Proof. intros H. unfold delete_project. now rewrite H. Qed.

(** C4, as stated, fails: with an identifier that is not legal and no bearer
    token, update and delete answer 401, not 400. *)
Lemma invalid_id_without_token_is_401 :
  ObjectId_is_valid "not-an-id" = false /\
  put_project demo_env None "not-an-id" demo_project (Some empty_store)
    = (Raise (HTTPException 401 "Unauthorized"), Some empty_store) /\
  delete_project_route demo_env None "not-an-id" (Some empty_store)
    = (Raise (HTTPException 401 "Unauthorized"), Some empty_store) /\
  status_of (fst (put_project demo_env None "not-an-id" demo_project (Some empty_store)))
    <> 400 /\
  status_of (fst (delete_project_route demo_env None "not-an-id" (Some empty_store)))
    <> 400.
Proof.
  split; [reflexivity|]. split; [reflexivity|]. split; [reflexivity|].
  split.
  - change (status_of (fst (put_project demo_env None "not-an-id" demo_project
                              (Some empty_store)))) with 401.
    discriminate.
  - change (status_of (fst (delete_project_route demo_env None "not-an-id"
                              (Some empty_store)))) with 401.
    discriminate.
Qed.

(** C4, amended.  An update or delete request whose id is not a legal store
    identifier is answered 400 when it passes the gate, with or without a
    database behind it, and 401 when it does not pass; the store is unchanged
    in both cases. *)
Theorem invalid_id_behind_gate (env : environ) (authorization : option string)
    (project_id : string) (project : Project) (db : option Store) :
  ObjectId_is_valid project_id = false ->
  (header_authorizes (ADMIN_TOKEN env) authorization ->
     put_project env authorization project_id project db
       = (Raise (HTTPException 400 "Invalid id"), db) /\
     delete_project_route env authorization project_id db
       = (Raise (HTTPException 400 "Invalid id"), db)) /\
  (~ header_authorizes (ADMIN_TOKEN env) authorization ->
     put_project env authorization project_id project db
       = (Raise (HTTPException 401 "Unauthorized"), db) /\
     delete_project_route env authorization project_id db
       = (Raise (HTTPException 401 "Unauthorized"), db)).
Proof.
  intros Hid. split.
  - intros Hy. apply require_admin_iff in Hy.
    unfold put_project, delete_project_route.
    rewrite !(Depends_granted _ _ _ Hy).
    now rewrite update_project_invalid_id, delete_project_invalid_id.
  - intros Hn.
    assert (Hd : require_admin (ADMIN_TOKEN env) authorization = Raise Unauthorized).
    { destruct (require_admin_cases (ADMIN_TOKEN env) authorization) as [H|H];
        [|exact H]. now apply require_admin_iff in H. }
    unfold put_project, delete_project_route.
    now rewrite !(Depends_denied _ _ _ Hd).
Qed.

Lemma invalid_id_behind_gate_witness :
  ObjectId_is_valid "not-an-id" = false /\
  header_authorizes (ADMIN_TOKEN demo_env) (Some "Bearer s3cret") /\
  put_project demo_env (Some "Bearer s3cret") "not-an-id" demo_project None
    = (Raise (HTTPException 400 "Invalid id"), None) /\
  delete_project_route demo_env (Some "Bearer s3cret") "not-an-id" None
    = (Raise (HTTPException 400 "Invalid id"), None).
Proof.
  assert (Hid : ObjectId_is_valid "not-an-id" = false) by reflexivity.
  assert (Hy : header_authorizes (ADMIN_TOKEN demo_env) (Some "Bearer s3cret")).
  { apply require_admin_iff. reflexivity. }
  split; [exact Hid|]. split; [exact Hy|].
  exact (proj1 (invalid_id_behind_gate demo_env (Some "Bearer s3cret") "not-an-id"
                  demo_project None Hid) Hy).
Defined.

(** ** The store operations *)

Lemma on_store_ok {A} (op : Store -> A * Store) st :
  fault st = None ->
  on_store op (Some st) = (Return (fst (op st)), Some (snd (op st))).
Proof. intros H. unfold on_store. rewrite H. now destruct (op st). Qed.

Lemma on_store_fault {A} (op : Store -> A * Store) st msg :
  fault st = Some msg -> on_store op (Some st) = (Raise (StoreError msg), Some st).
Proof. intros H. unfold on_store. now rewrite H. Qed.

Lemma coll_set_coll_eq st name docs : coll (set_coll st name docs) name = docs.
Proof. unfold coll, set_coll. simpl. now rewrite lookup_insert_eq. Qed.

Lemma coll_set_coll_ne st name other docs :
  other <> name -> coll (set_coll st name docs) other = coll st other.
Proof. intros H. unfold coll, set_coll. simpl. now rewrite lookup_insert_ne. Qed.

Lemma first_match_split oid (docs : list doc) :
  Forall (fun d => has_id oid d = false) docs \/
  exists pre d post,
    docs = (pre ++ d :: post)%list /\
    Forall (fun d => has_id oid d = false) pre /\ has_id oid d = true.
Proof.
  induction docs as [|x docs IH]; [left; constructor|].
  destruct (has_id oid x) eqn:Hx.
  - right. exists [], x, docs. repeat split; [constructor | exact Hx].
  - destruct IH as [IH | (pre & d & post & -> & Hpre & Hd)].
    + left. now constructor.
    + right. exists (x :: pre), d, post. repeat split; [now constructor | exact Hd].
Qed.

Lemma update_first_miss oid fields (docs : list doc) :
  Forall (fun d => has_id oid d = false) docs ->
  update_first oid fields docs = (O, docs).
Proof.
  induction 1 as [|x docs Hx _ IH]; [reflexivity|].
  simpl. now rewrite Hx, IH.
Qed.

Lemma update_first_hit oid fields (pre : list doc) d post :
  Forall (fun d => has_id oid d = false) pre -> has_id oid d = true ->
  update_first oid fields (pre ++ d :: post)
    = (1%nat, (pre ++ apply_set fields d :: post)%list).
Proof.
  intros Hpre Hd. induction Hpre as [|x pre Hx _ IH]; simpl.
  - now rewrite Hd.
  - now rewrite Hx, IH.
Qed.

Lemma delete_first_miss oid (docs : list doc) :
  Forall (fun d => has_id oid d = false) docs -> delete_first oid docs = (O, docs).
Proof.
  induction 1 as [|x docs Hx _ IH]; [reflexivity|].
  simpl. now rewrite Hx, IH.
Qed.

Lemma delete_first_hit oid (pre : list doc) d post :
  Forall (fun d => has_id oid d = false) pre -> has_id oid d = true ->
  delete_first oid (pre ++ d :: post) = (1%nat, (pre ++ post)%list).
Proof.
  intros Hpre Hd. induction Hpre as [|x pre Hx _ IH]; simpl.
  - now rewrite Hd.
  - now rewrite Hx, IH.
Qed.

Lemma has_id_lookup oid (d : doc) : has_id oid d = true -> d !! "_id" = Some (VOid oid).
Proof.
  unfold has_id. destruct (d !! "_id") as [[]|]; try discriminate.
  intros H. apply bool_decide_eq_true in H. now subst.
Qed.

Lemma model_dump_no_id (project : Project) : model_dump project !! "_id" = None.
Proof. reflexivity. Qed.

Lemma is_valid_ObjectId project_id :
  ObjectId_is_valid project_id = true -> exists oid, ObjectId project_id = Return oid.
Proof.
  unfold ObjectId_is_valid. destruct (negb _); [discriminate|].
  destruct (ObjectId project_id) as [oid|]; [eauto | discriminate].
Qed.

(** ** Listing without a store *)

Lemma listing_unreachable_store_raises st msg :
  fault st = Some msg -> list_projects (Some st) = (Raise (StoreError msg), Some st).
Proof.
  intros H. unfold list_projects, ensure_seed_projects, bind, db_is_None.
  unfold count_documents. now rewrite (on_store_fault _ st msg H).
Qed.

(** C8 fails on the code: with no database configured the listing does not
    answer an empty sequence; [ensure_seed_projects] returns, then
    subscripting [db] raises, and the framework answers 500. *)
Theorem listing_without_store_raises :
  ensure_seed_projects None = (Return tt, None) /\
  list_projects None = (Raise TypeError, None) /\
  status_of (fst (list_projects None)) = 500.
Proof. repeat split. Qed.

(** ** Update and delete on a reachable store *)

Lemma ObjectId_is_valid_of project_id oid :
  ObjectId project_id = Return oid -> ObjectId_is_valid project_id = true.
Proof.
  intros H. unfold ObjectId_is_valid.
  destruct project_id; [discriminate H|]. now rewrite H.
Qed.

Lemma forallb_map_VStr l : forallb value_encodable (map VStr l) = true.
Proof. induction l as [|x l IH]; [reflexivity | exact IH]. Qed.

Lemma doc_encodable_spec (d : doc) :
  doc_encodable d = true <-> forall k v, d !! k = Some v -> value_encodable v = true.
Proof.
  unfold doc_encodable. rewrite forallb_forall. split.
  - intros H k v Hkv. apply (H (k, v)).
    apply list_elem_of_In, elem_of_map_to_list, Hkv.
  - intros H [k v] Hin. apply (H k).
    now apply elem_of_map_to_list, list_elem_of_In.
Qed.

(** Of a dumped project only [order] can be too large to encode. *)
Lemma model_dump_encodable (project : Project) :
  doc_encodable (model_dump project) = in_int64 (order project).
Proof.
  destruct (in_int64 (order project)) eqn:Ho.
  - apply doc_encodable_spec. intros k v H.
    destruct project as [n dsc s g l f ord]. cbn [order] in Ho.
    unfold model_dump, Project_model in H.
    cbn [name description stack github live featured order] in H.
    repeat (apply lookup_insert_Some in H as [[_ <-] | [_ H]];
            [try reflexivity | ]).
    + apply forallb_map_VStr.
    + now destruct g.
    + now destruct l.
    + exact Ho.
    + now rewrite lookup_empty in H.
  - destruct (doc_encodable (model_dump project)) eqn:He; [|reflexivity].
    rewrite <- Ho. symmetry.
    apply (proj1 (doc_encodable_spec _) He "order" (VInt (order project))).
    reflexivity.
Qed.

Lemma update_one_ok st name oid fields :
  fault st = None -> doc_encodable fields = true ->
  update_one name oid fields (Some st)
    = (Return (fst (update_first oid fields (coll st name))),
       Some (if (fst (update_first oid fields (coll st name)) =? 0)%nat then st
             else set_coll st name (snd (update_first oid fields (coll st name))))).
Proof.
  intros Hf He. unfold update_one, bind, lift, bson_encode.
  rewrite (on_store_ok _ st Hf), He. cbn [fst snd].
  rewrite (on_store_ok _ st Hf).
  now destruct (update_first oid fields (coll st name)).
Qed.

Lemma update_one_overflow st name oid fields :
  fault st = None -> doc_encodable fields = false ->
  update_one name oid fields (Some st) = (Raise OverflowError, Some st).
Proof.
  intros Hf He. unfold update_one, bind, lift, bson_encode.
  now rewrite (on_store_ok _ st Hf), He.
Qed.

Lemma update_one_fault st msg name oid fields :
  fault st = Some msg ->
  update_one name oid fields (Some st) = (Raise (StoreError msg), Some st).
Proof. intros Hf. unfold update_one, bind. now rewrite (on_store_fault _ st msg Hf). Qed.

Lemma update_project_hit st project_id oid project pre d post :
  fault st = None -> ObjectId project_id = Return oid ->
  in_int64 (order project) = true ->
  coll st "project" = (pre ++ d :: post)%list ->
  Forall (fun x => has_id oid x = false) pre -> has_id oid d = true ->
  update_project project_id project (Some st)
    = (Return true,
       Some (set_coll st "project"
               (pre ++ apply_set (model_dump project) d :: post)%list)).
Proof.
  intros Hf Ho Hi Hc Hpre Hd. unfold update_project.
  rewrite (ObjectId_is_valid_of _ _ Ho). cbn [negb].
  unfold bind, lift. rewrite Ho.
  rewrite (update_one_ok st _ _ _ Hf); [|now rewrite model_dump_encodable].
  now rewrite Hc, (update_first_hit _ _ _ _ _ Hpre Hd).
Qed.

Lemma update_project_miss st project_id oid project :
  fault st = None -> ObjectId project_id = Return oid ->
  in_int64 (order project) = true ->
  Forall (fun x => has_id oid x = false) (coll st "project") ->
  update_project project_id project (Some st)
    = (Raise (HTTPException 404 "Not found"), Some st).
Proof.
  intros Hf Ho Hi Hall. unfold update_project.
  rewrite (ObjectId_is_valid_of _ _ Ho). cbn [negb].
  unfold bind, lift. rewrite Ho.
  rewrite (update_one_ok st _ _ _ Hf); [|now rewrite model_dump_encodable].
  now rewrite (update_first_miss _ _ _ Hall).
Qed.

(** A payload whose [order] does not fit in eight bytes cannot be encoded:
    the update raises before any record is looked at. *)
Lemma update_project_overflow st project_id oid project :
  fault st = None -> ObjectId project_id = Return oid ->
  in_int64 (order project) = false ->
  update_project project_id project (Some st) = (Raise OverflowError, Some st).
Proof.
  intros Hf Ho Hi. unfold update_project.
  rewrite (ObjectId_is_valid_of _ _ Ho). cbn [negb].
  unfold bind, lift. rewrite Ho.
  rewrite (update_one_overflow st _ _ _ Hf); [reflexivity|].
  now rewrite model_dump_encodable.
Qed.

Lemma delete_project_hit st project_id oid pre d post :
  fault st = None -> ObjectId project_id = Return oid ->
  coll st "project" = (pre ++ d :: post)%list ->
  Forall (fun x => has_id oid x = false) pre -> has_id oid d = true ->
  delete_project project_id (Some st)
    = (Return true, Some (set_coll st "project" (pre ++ post)%list)).
Proof.
  intros Hf Ho Hc Hpre Hd. unfold delete_project.
  rewrite (ObjectId_is_valid_of _ _ Ho). cbn [negb].
  unfold bind, lift, delete_one. rewrite Ho, (on_store_ok _ st Hf).
  now rewrite Hc, (delete_first_hit _ _ _ _ Hpre Hd).
Qed.

Lemma delete_project_miss st project_id oid :
  fault st = None -> ObjectId project_id = Return oid ->
  Forall (fun x => has_id oid x = false) (coll st "project") ->
  delete_project project_id (Some st)
    = (Raise (HTTPException 404 "Not found"), Some st).
Proof.
  intros Hf Ho Hall. unfold delete_project.
  rewrite (ObjectId_is_valid_of _ _ Ho). cbn [negb].
  unfold bind, lift, delete_one. rewrite Ho, (on_store_ok _ st Hf).
  now rewrite (delete_first_miss _ _ Hall).
Qed.

Lemma update_project_no_store project_id project :
  snd (update_project project_id project None) = None.
Proof.
  unfold update_project. destruct (negb _); [reflexivity|].
  unfold bind, lift. now destruct (ObjectId project_id).
Qed.

Lemma delete_project_no_store project_id :
  snd (delete_project project_id None) = None.
Proof.
  unfold delete_project. destruct (negb _); [reflexivity|].
  unfold bind, lift. now destruct (ObjectId project_id).
Qed.

Lemma update_project_fault st msg project_id project :
  fault st = Some msg -> snd (update_project project_id project (Some st)) = Some st.
Proof.
  intros Hf. unfold update_project. destruct (negb _); [reflexivity|].
  unfold bind, lift. destruct (ObjectId project_id); [|reflexivity].
  now rewrite (update_one_fault st msg _ _ _ Hf).
Qed.

Lemma delete_project_fault st msg project_id :
  fault st = Some msg -> snd (delete_project project_id (Some st)) = Some st.
Proof.
  intros Hf. unfold delete_project. destruct (negb _); [reflexivity|].
  unfold bind, lift, delete_one. destruct (ObjectId project_id); [|reflexivity].
  now rewrite (on_store_fault _ st msg Hf).
Qed.

Lemma update_project_frame project_id project db :
  only_record_touched project_id db (snd (update_project project_id project db)).
Proof.
  destruct db as [st|]; [|left; apply update_project_no_store].
  destruct (fault st) as [msg|] eqn:Hf; [left; eapply update_project_fault; eauto|].
  destruct (ObjectId_is_valid project_id) eqn:Hv.
  2:{ left. now rewrite update_project_invalid_id. }
  destruct (is_valid_ObjectId _ Hv) as [oid Ho].
  destruct (in_int64 (order project)) eqn:Hi.
  2:{ left. now rewrite (update_project_overflow st project_id oid project Hf Ho Hi). }
  destruct (first_match_split oid (coll st "project"))
    as [Hall | (pre & d & post & Hc & Hpre & Hd)].
  - left. now rewrite (update_project_miss st project_id oid project Hf Ho Hi Hall).
  - right.
    rewrite (update_project_hit st project_id oid project pre d post Hf Ho Hi Hc Hpre Hd).
    exists st, (set_coll st "project" (pre ++ apply_set (model_dump project) d :: post)%list),
      oid, pre, d, post.
    repeat split; try assumption.
    + right. exists (apply_set (model_dump project) d). split.
      * unfold apply_set. rewrite lookup_union_r; [reflexivity | apply model_dump_no_id].
      * apply coll_set_coll_eq.
    + intros name Hn. unfold set_coll. simpl. now rewrite lookup_insert_ne.
Qed.

Lemma delete_project_frame project_id db :
  only_record_touched project_id db (snd (delete_project project_id db)).
Proof.
  destruct db as [st|]; [|left; apply delete_project_no_store].
  destruct (fault st) as [msg|] eqn:Hf; [left; eapply delete_project_fault; eauto|].
  destruct (ObjectId_is_valid project_id) eqn:Hv.
  2:{ left. now rewrite delete_project_invalid_id. }
  destruct (is_valid_ObjectId _ Hv) as [oid Ho].
  destruct (first_match_split oid (coll st "project"))
    as [Hall | (pre & d & post & Hc & Hpre & Hd)].
  - left. now rewrite (delete_project_miss st project_id oid Hf Ho Hall).
  - right. rewrite (delete_project_hit st project_id oid pre d post Hf Ho Hc Hpre Hd).
    exists st, (set_coll st "project" (pre ++ post)%list), oid, pre, d, post.
    repeat split; try assumption.
    + left. apply coll_set_coll_eq.
    + intros name Hn. unfold set_coll. simpl. now rewrite lookup_insert_ne.
Qed.

(** C10.  Whatever the store, the id, the payload and the header, an update
    or delete changes at most one project record, one whose store identifier
    is the given id: the records before and behind it stay at their places,
    an updated record keeps its identifier, and every other collection is as
    it was. *)
Theorem mutation_touches_one_record (env : environ) (authorization : option string)
    (project_id : string) (project : Project) (db : option Store) :
  only_record_touched project_id db
    (snd (put_project env authorization project_id project db)) /\
  only_record_touched project_id db
    (snd (delete_project_route env authorization project_id db)).
Proof.
  unfold put_project, delete_project_route.
  destruct (require_admin_cases (ADMIN_TOKEN env) authorization) as [H|H].
  - rewrite !(Depends_granted _ _ _ H).
    split; [apply update_project_frame | apply delete_project_frame].
  - rewrite !(Depends_denied _ _ _ H). split; now left.
Qed.

(** ** Update writes the payload's fields into the record *)

(** C5, as stated, fails: a field of the old record that the payload does not
    have is still there after an authorized update, so the record is more
    than the payload and the id. *)
Lemma update_keeps_field_outside_payload :
  exists st' d',
    put_project demo_env (Some "Bearer s3cret") "000000000000000000000000"
                demo_project (Some legacy_store) = (Return true, Some st') /\
    coll st' "project" = [d'] /\
    d' !! "notes" = Some (VStr "legacy") /\
    (<["_id" := VOid (be_bytes 12 0)]> (model_dump demo_project)) !! "notes" = None /\
    d' <> <["_id" := VOid (be_bytes 12 0)]> (model_dump demo_project).
Proof.
  exists (set_coll legacy_store "project"
            [apply_set (model_dump demo_project) legacy_record]),
         (apply_set (model_dump demo_project) legacy_record).
  split; [reflexivity|]. split; [reflexivity|].
  split; [reflexivity|]. split; [reflexivity|].
  intros H. apply (f_equal (fun m : doc => m !! "notes")) in H.
  change (Some (VStr "legacy") = @None value) in H. discriminate H.
Qed.

Lemma apply_set_payload (fields d : doc) k v :
  fields !! k = Some v -> apply_set fields d !! k = Some v.
Proof. intros H. unfold apply_set. now apply lookup_union_Some_l. Qed.

Lemma apply_set_other (fields d : doc) k :
  fields !! k = None -> apply_set fields d !! k = d !! k.
Proof. intros H. unfold apply_set. now apply lookup_union_r. Qed.

(** C5, amended.  An authorized update with a legal id that matches a record
    of a reachable store, with a payload whose [order] fits in eight bytes,
    answers [updated: true] and writes every field of the payload into the
    first matching record; the record keeps its id and every other field it
    had.  When the old record has no field besides its id and the payload's,
    the new record is exactly the payload and the id. *)
Theorem update_sets_payload_fields (env : environ) (authorization : option string)
    (st : Store) (project_id : string) (oid : list N) (project : Project)
    (pre post : list doc) (d : doc) :
  header_authorizes (ADMIN_TOKEN env) authorization ->
  fault st = None ->
  ObjectId project_id = Return oid ->
  in_int64 (order project) = true ->
  coll st "project" = (pre ++ d :: post)%list ->
  Forall (fun x => has_id oid x = false) pre ->
  has_id oid d = true ->
  let d' := apply_set (model_dump project) d in
  put_project env authorization project_id project (Some st)
    = (Return true, Some (set_coll st "project" (pre ++ d' :: post)%list)) /\
  d' !! "_id" = Some (VOid oid) /\
  (forall k v, model_dump project !! k = Some v -> d' !! k = Some v) /\
  (forall k, model_dump project !! k = None -> d' !! k = d !! k) /\
  ((forall k, is_Some (d !! k) -> k = "_id" \/ is_Some (model_dump project !! k)) ->
   d' = <["_id" := VOid oid]> (model_dump project)).
Proof.
  intros Hy Hf Ho Hi Hc Hpre Hd d'. apply require_admin_iff in Hy.
  split.
  { unfold put_project. rewrite (Depends_granted _ _ _ Hy).
    now apply update_project_hit with (oid := oid). }
  pose proof (has_id_lookup _ _ Hd) as Hid.
  split.
  { unfold d'. rewrite apply_set_other; [exact Hid | apply model_dump_no_id]. }
  split; [intros k v; apply apply_set_payload|].
  split; [intros k; apply apply_set_other|].
  intros Hdom. apply map_eq. intros k.
  destruct (decide (k = "_id")) as [->|Hk].
  - rewrite lookup_insert_eq. unfold d'.
    rewrite apply_set_other; [exact Hid | apply model_dump_no_id].
  - rewrite lookup_insert_ne by congruence.
    destruct (model_dump project !! k) as [v|] eqn:Hp.
    + now apply apply_set_payload.
    + unfold d'. rewrite (apply_set_other _ _ _ Hp).
      destruct (d !! k) as [w|] eqn:Hdk; [|reflexivity].
      destruct (Hdom k) as [->|[v Hv]]; [now exists w | congruence | congruence].
Qed.

Lemma update_sets_payload_fields_witness :
  exists st',
    put_project demo_env (Some "Bearer s3cret") "000000000000000000000000"
                demo_project (Some legacy_store) = (Return true, Some st') /\
    coll st' "project" = [apply_set (model_dump demo_project) legacy_record] /\
    apply_set (model_dump demo_project) legacy_record !! "name" = Some (VStr "Atlas") /\
    apply_set (model_dump demo_project) legacy_record !! "notes" = Some (VStr "legacy").
Proof.
  assert (Hy : header_authorizes (ADMIN_TOKEN demo_env) (Some "Bearer s3cret")).
  { apply require_admin_iff. reflexivity. }
  destruct (update_sets_payload_fields demo_env (Some "Bearer s3cret") legacy_store
              "000000000000000000000000" (be_bytes 12 0) demo_project [] []
              legacy_record Hy eq_refl eq_refl eq_refl eq_refl (List.Forall_nil _)
              eq_refl)
    as (Hrun & _ & Hpay & Hkeep & _).
  eexists. split; [exact Hrun|].
  split; [apply coll_set_coll_eq|].
  split; [apply Hpay; reflexivity|].
  rewrite Hkeep; reflexivity.
Defined.

(** ** Sorting keeps the records *)

Lemma insert_by_perm {A} (f : A -> A -> bool) x l :
  Permutation (insert_by f x l) (x :: l).
Proof.
  induction l as [|y l IH]; simpl; [reflexivity|].
  destruct (f x y); [reflexivity|].
  rewrite IH. apply perm_swap.
Qed.

Lemma sort_by_perm {A} (f : A -> A -> bool) l : Permutation (sort_by f l) l.
Proof.
  induction l as [|x l IH]; simpl; [reflexivity|].
  rewrite insert_by_perm. now constructor.
Qed.

Lemma sort_by_not_nil {A} (f : A -> A -> bool) l : l <> [] -> sort_by f l <> [].
Proof.
  intros Hl Hs. apply Hl. apply Permutation_nil.
  rewrite <- Hs. apply sort_by_perm.
Qed.

(** ** Creating documents and seeding *)

Lemma create_document_ok {A} `{BaseModel A} st collection_name (data : A) :
  fault st = None ->
  create_document collection_name data (Some st)
    = (Return (oid_str (be_bytes 12 (next_oid st))),
       Some (mkStore
               (<[collection_name :=
                    (coll st collection_name
                       ++ [<["_id" := VOid (be_bytes 12 (next_oid st))]> (model_dump data)])%list]>
                  (colls st))
               (next_oid st + 1)%N (fault st))).
Proof.
  intros Hf. unfold create_document, bind, insert_one.
  now rewrite (on_store_ok _ st Hf).
Qed.

Lemma map_result_cons_inv {A B} (f : A -> result B) x l ys :
  map_result f (x :: l) = Return ys ->
  exists y ys', f x = Return y /\ map_result f l = Return ys' /\ ys = y :: ys'.
Proof.
  simpl. destruct (f x) as [y|]; [|discriminate]. simpl.
  destruct (map_result f l) as [ys'|]; [|discriminate]. simpl.
  intros [= <-]. eauto.
Qed.

Lemma seed_loop l : forall ms st,
  fault st = None -> map_result ProjectSchema l = Return ms ->
  exists st',
    for_each l (fun p => let* schema := lift (ProjectSchema p) in
                         create_document "project" schema >> ret tt) (Some st)
      = (Return tt, Some st') /\
    coll st' "project" = (coll st "project" ++ stored_as (next_oid st) ms)%list /\
    (forall name, name <> "project" -> colls st' !! name = colls st !! name) /\
    fault st' = None /\
    next_oid st' = (next_oid st + N.of_nat (length ms))%N.
Proof.
  induction l as [|p l IH]; intros ms st Hf Hms.
  - injection Hms as <-. exists st. simpl. rewrite app_nil_r, N.add_0_r. auto.
  - destruct (map_result_cons_inv _ _ _ _ Hms) as (m & ms' & Hp & Hl & ->).
    simpl for_each. unfold bind at 1. unfold bind at 1. unfold lift at 1.
    rewrite Hp. unfold bind at 1. rewrite (create_document_ok st "project" m Hf).
    unfold ret at 1.
    set (st2 := mkStore _ _ _).
    destruct (IH ms' st2 Hf Hl) as (st' & Hrun & Hc & Ho & Hf' & Hn).
    exists st'. split; [exact Hrun|].
    split.
    { rewrite Hc. unfold st2, coll at 1. simpl. rewrite lookup_insert_eq. simpl.
      now rewrite <- app_assoc. }
    split.
    { intros name Hname. rewrite (Ho name Hname). unfold st2. simpl.
      now rewrite lookup_insert_ne. }
    split; [exact Hf'|].
    rewrite Hn. unfold st2. simpl length. simpl next_oid. lia.
Qed.

Lemma seed_schemas : map_result ProjectSchema SEED_PROJECTS = Return SEED_MODELS.
Proof. reflexivity. Qed.

(** What one listing does on a reachable store: seed when the collection is
    empty, then sort and validate what is there. *)
Lemma list_projects_run st :
  fault st = None ->
  exists st',
    list_projects (Some st)
      = (map_result ProjectOut_validate (sort_by order_leb (listed_docs st)), Some st') /\
    coll st' "project" = listed_docs st /\
    (forall name, name <> "project" -> colls st' !! name = colls st !! name) /\
    fault st' = None /\
    (coll st "project" <> [] -> st' = st).
Proof.
  intros Hf. unfold list_projects, ensure_seed_projects.
  unfold bind at 1. unfold bind at 1. unfold db_is_None at 1.
  unfold bind at 1. unfold count_documents. rewrite (on_store_ok _ st Hf). simpl fst. simpl snd.
  unfold listed_docs.
  destruct (coll st "project") as [|d docs] eqn:Hc.
  - cbn [fst snd length Nat.eqb].
    destruct (seed_loop SEED_PROJECTS SEED_MODELS st Hf seed_schemas)
      as (st' & Hrun & Hc' & Ho & Hf' & Hn).
    rewrite Hrun. exists st'.
    rewrite Hc in Hc'. simpl in Hc'.
    unfold bind, find_sorted, lift. rewrite (on_store_ok _ st' Hf').
    cbn [fst snd]. rewrite Hc'. fold order_leb.
    destruct (map_result _ _); repeat split; auto; intros; congruence.
  - cbn [fst snd length Nat.eqb]. unfold ret at 1. exists st.
    unfold bind, find_sorted, lift. rewrite (on_store_ok _ st Hf).
    cbn [fst snd]. rewrite Hc. fold order_leb.
    destruct (map_result _ _); repeat split; auto.
Qed.

(** ** What the listing returns *)

Lemma all_str_map l : all_str (map VStr l) = Return l.
Proof. induction l as [|s l IH]; simpl; [reflexivity | now rewrite IH]. Qed.

Lemma stored_as_payloads ps : forall n,
  map (delete "_id") (stored_as n ps) = map model_dump ps.
Proof.
  induction ps as [|p ps IH]; intros n; cbn [stored_as map]; [reflexivity|].
  rewrite IH. f_equal.
Qed.

(** No document makes a [ProjectOut]: with an id the validator call raises,
    without one the field is missing. *)
Lemma ProjectOut_validate_raises (d : doc) :
  ProjectOut_validate d = Raise TypeError \/ ProjectOut_validate d = Raise ValidationError.
Proof.
  unfold ProjectOut_validate.
  destruct (match d !! "_id" with Some v => Some v | None => d !! "id" end);
    [left | right]; reflexivity.
Qed.

Lemma listed_docs_nonempty st :
  coll st "project" <> [] -> listed_docs st = coll st "project".
Proof. unfold listed_docs. now destruct (coll st "project"). Qed.

Lemma listed_docs_not_nil st : listed_docs st <> [].
Proof.
  unfold listed_docs. destruct (coll st "project"); [|discriminate].
  unfold SEED_MODELS. cbn [stored_as]. discriminate.
Qed.

(** C2 fails on the code: on every reachable store the listing ends in an
    exception and the framework answers 500.  After seeding the collection is
    never empty, the records are sorted, and building the [ProjectOut] of the
    first one raises: [TypeError] from the call of the id validator (as for
    every record that has an [_id]), a validation error for a record without
    an id. *)
Theorem listing_raises_on_every_store :
  (forall (cs : gmap string (list doc)) (n : N),
     exists e st',
       list_projects (Some (mkStore cs n None)) = (Raise e, Some st') /\
       (e = TypeError \/ e = ValidationError) /\
       status_of (fst (list_projects (Some (mkStore cs n None)))) = 500) /\
  list_projects (Some shuffled_store) = (Raise TypeError, Some shuffled_store) /\
  fst (list_projects (Some empty_store)) = Raise TypeError.
Proof.
  split; [|split; reflexivity].
  intros cs n. set (st := mkStore cs n None).
  destruct (list_projects_run st eq_refl) as (st' & Hrun & _).
  rewrite Hrun.
  destruct (sort_by order_leb (listed_docs st)) as [|d docs] eqn:Hs.
  { exfalso. revert Hs. apply sort_by_not_nil, listed_docs_not_nil. }
  cbn [map_result].
  destruct (ProjectOut_validate_raises d) as [-> | ->]; cbn [rbind fst status_of];
    eexists _, st'; repeat split; auto.
Qed.

(** ** Seeding *)

(** C3.  A first listing against a reachable store whose project collection
    is empty leaves exactly the four seed projects in the collection (the seed
    dicts with the schema default for [live], each under a fresh id) and
    every other collection as it was; a second listing inserts nothing: the
    store stays as the first one left it. *)
Theorem seeding_happens_once (st : Store) :
  fault st = None ->
  coll st "project" = [] ->
  exists st1 r1 r2,
    list_projects (Some st) = (r1, Some st1) /\
    map (delete "_id") (coll st1 "project")
      = map (insert "live" VNull) SEED_PROJECTS /\
    length (coll st1 "project") = 4%nat /\
    (forall name, name <> "project" -> colls st1 !! name = colls st !! name) /\
    list_projects (Some st1) = (r2, Some st1).
Proof.
  intros Hf He.
  assert (Hl : listed_docs st = stored_as (next_oid st) SEED_MODELS).
  { unfold listed_docs. now rewrite He. }
  destruct (list_projects_run st Hf) as (st1 & Hrun & Hc & Hother & Hf1 & _).
  destruct (list_projects_run st1 Hf1) as (st2 & Hrun2 & _ & _ & _ & Hsame).
  rewrite Hl in Hc.
  assert (st2 = st1) as -> by (apply Hsame; rewrite Hc; discriminate).
  eexists st1, _, _. split; [exact Hrun|].
  split; [rewrite Hc, stored_as_payloads; reflexivity|].
  split; [rewrite Hc; reflexivity|].
  split; [exact Hother | exact Hrun2].
Qed.

Lemma seeding_happens_once_witness :
  exists st1 r1 r2,
    list_projects (Some empty_store) = (r1, Some st1) /\
    map (delete "_id") (coll st1 "project")
      = map (insert "live" VNull) SEED_PROJECTS /\
    length (coll st1 "project") = 4%nat /\
    (forall name, name <> "project" -> colls st1 !! name = colls empty_store !! name) /\
    list_projects (Some st1) = (r2, Some st1).
Proof. apply (seeding_happens_once empty_store); reflexivity. Defined.

(** ** Contact *)








(** ** The now-playing proxy *)

Example now_playing_idle : now_playing spotify_env idle_provider = Return not_playing.
Proof. reflexivity. Qed.

Example now_playing_track :
  now_playing spotify_env playing_provider
    = Return (PDict [ ("isPlaying", PBool true);
                      ("title", PStr "Song");
                      ("artist", PStr "Ann, Bob");
                      ("album", PStr "LP");
                      ("albumImageUrl", PStr "big.png");
                      ("songUrl", PStr "https://open/song") ]).
Proof. reflexivity. Qed.

Lemma try_except_returns {A} (body : result A) (a : A) :
  exists v, try_except body (Return a) = Return v.
Proof. destruct body; simpl; eauto. Qed.

Lemma get_spotify_access_token_returns env P :
  exists token, get_spotify_access_token env P = Return token.
Proof.
  unfold get_spotify_access_token.
  destruct (SPOTIFY_CLIENT_ID env), (SPOTIFY_CLIENT_SECRET env),
    (SPOTIFY_REFRESH_TOKEN env); eauto.
  destruct (negb _); eauto using try_except_returns.
Qed.

Lemma now_playing_returns env P : exists v, now_playing env P = Return v.
Proof.
  unfold now_playing.
  destruct (get_spotify_access_token_returns env P) as [token ->].
  cbn [rbind]. destruct (negb (truthy token)); eauto using try_except_returns.
Qed.

(** The token is [None] or falsy whenever the refresh fails. *)
Lemma no_token env P :
  credentials_set env = false \/
  token_request env P = Some NetworkError \/
  (exists c j, token_request env P = Some (HttpResponse c j) /\ c <> 200) \/
  (exists e, token_request env P = Some (HttpResponse 200 (Raise e))) \/
  (exists body, token_request env P = Some (HttpResponse 200 (Return body)) /\
     forall t, py_get body "access_token" PNone = Return t -> truthy t = false) ->
  exists token, get_spotify_access_token env P = Return token /\ truthy token = false.
Proof.
  unfold credentials_set, token_request, get_spotify_access_token.
  destruct (SPOTIFY_CLIENT_ID env) as [cid|], (SPOTIFY_CLIENT_SECRET env) as [sec|],
    (SPOTIFY_REFRESH_TOKEN env) as [ref|];
    try (intros _; exists PNone; split; reflexivity).
  cbn [opt_truthy].
  destruct (str_truthy cid && str_truthy sec && str_truthy ref) eqn:Hc;
    [|intros _; exists PNone; split; reflexivity].
  cbn [negb].
  intros [H | [H | [(c & j & H & Hne) | [(e & H) | (body & H & Hb)]]]].
  - discriminate H.
  - injection H as ->. exists PNone. split; reflexivity.
  - injection H as ->. exists PNone. cbn [requests_call rbind fst].
    destruct (Z.eqb_spec c 200); [contradiction|]. split; reflexivity.
  - injection H as ->. exists PNone. split; reflexivity.
  - injection H as ->. cbn [requests_call rbind fst snd Z.eqb Pos.eqb].
    destruct (py_get body "access_token" PNone) as [t|e] eqn:Ht.
    + exists t. split; [reflexivity | now apply Hb].
    + exists PNone. split; reflexivity.
Qed.

Lemma now_playing_no_token env P token :
  get_spotify_access_token env P = Return token -> truthy token = false ->
  now_playing env P = Return not_playing.
Proof. intros H Ht. unfold now_playing. rewrite H. cbn [rbind]. now rewrite Ht. Qed.

Lemma now_playing_with_token env P token :
  get_spotify_access_token env P = Return token ->
  currently_playing P token = NetworkError \/
  (exists c j, currently_playing P token = HttpResponse c j /\ c <> 200) \/
  (exists e, currently_playing P token = HttpResponse 200 (Raise e)) \/
  (exists data, currently_playing P token = HttpResponse 200 (Return data) /\
     forall item, py_get data "item" PNone = Return item -> truthy item = false) ->
  now_playing env P = Return not_playing.
Proof.
  intros H Hcase. unfold now_playing. rewrite H. cbn [rbind].
  destruct (negb (truthy token)); [reflexivity|].
  destruct Hcase as [Hp | [(c & j & Hp & Hne) | [(e & Hp) | (data & Hp & Hitem)]]];
    rewrite Hp; cbn [requests_call rbind fst snd].
  - reflexivity.
  - destruct (c =? 204); [reflexivity|].
    destruct (Z.eqb_spec c 200); [contradiction | reflexivity].
  - reflexivity.
  - cbn [Z.eqb Pos.eqb negb].
    destruct (py_get data "is_playing" (PBool false)) as [playing|]; [|reflexivity].
    cbn [rbind].
    destruct (py_get data "item" PNone) as [item|] eqn:Hi; [|reflexivity].
    cbn [rbind]. rewrite (Hitem item eq_refl). reflexivity.
Qed.

(** C7.  The now-playing operation always returns a payload, whatever the
    environment and the provider do; and when a credential is unset, the token
    refresh fails, the playback call fails or answers 204 or any status other
    than 200, or the body has no playable item, the payload is
    [{isPlaying: false}]. *)
Theorem now_playing_degrades (env : environ) (P : Provider) :
  (exists payload, now_playing env P = Return payload) /\
  (degraded env P -> now_playing env P = Return not_playing).
Proof.
  split; [apply now_playing_returns|].
  intros [H | H | c j H Hne | e H | body H Hb
          | token Ht H | token c j Ht H Hne | token e Ht H | token data Ht H Hi].
  - destruct (no_token env P) as (t & Ht & Hf); [now left|].
    now apply now_playing_no_token with (token := t).
  - destruct (no_token env P) as (t & Ht & Hf); [right; now left|].
    now apply now_playing_no_token with (token := t).
  - destruct (no_token env P) as (t & Ht & Hf); [right; right; left; eauto|].
    now apply now_playing_no_token with (token := t).
  - destruct (no_token env P) as (t & Ht & Hf); [right; right; right; left; eauto|].
    now apply now_playing_no_token with (token := t).
  - destruct (no_token env P) as (t & Ht & Hf); [right; right; right; right; eauto|].
    now apply now_playing_no_token with (token := t).
  - apply now_playing_with_token with (token := token); auto.
  - apply now_playing_with_token with (token := token); [exact Ht|].
    right; left; eauto.
  - apply now_playing_with_token with (token := token); [exact Ht|].
    right; right; left; eauto.
  - apply now_playing_with_token with (token := token); [exact Ht|].
    right; right; right; eauto.
Qed.

Lemma now_playing_degrades_witness :
  degraded spotify_env idle_provider /\
  now_playing spotify_env idle_provider = Return not_playing.
Proof.
  assert (Hd : degraded spotify_env idle_provider).
  { apply (playback_status spotify_env idle_provider (PStr "tok") 204 (Raise ValueError));
      [reflexivity | reflexivity | discriminate]. }
  split; [exact Hd|].
  exact (proj2 (now_playing_degrades spotify_env idle_provider) Hd).
Defined.

(** ** Diagnostics *)

(** C9, as stated, fails: two environments with both settings made, to
    different values, give different responses over the same store, because
    the response carries the database name. *)
Lemma diagnostics_show_database_name :
  opt_truthy (alpha_env !! "DATABASE_URL") = true /\
  opt_truthy (alpha_env !! "DATABASE_NAME") = true /\
  opt_truthy (beta_env !! "DATABASE_URL") = true /\
  opt_truthy (beta_env !! "DATABASE_NAME") = true /\
  test_database alpha_env (Some empty_store)
    <> test_database beta_env (Some empty_store).
Proof.
  repeat (split; [reflexivity|]).
  intros H.
  assert (Ha : fst (test_database alpha_env (Some empty_store))
               = Return (mkDiagnostics "✅ Running" "✅ Connected & Working"
                           (Some "✅ Set") (Some "alpha") "Not Connected" []))
    by reflexivity.
  assert (Hb : fst (test_database beta_env (Some empty_store))
               = Return (mkDiagnostics "✅ Running" "✅ Connected & Working"
                           (Some "✅ Set") (Some "beta") "Not Connected" []))
    by reflexivity.
  rewrite H, Hb in Ha. discriminate Ha.
Qed.

(** What is copied from the driver: two stores that differ in nothing but
    the error text give different responses. *)
Example diagnostics_copy_error_text :
  fst (test_database alpha_env (Some alpha_down))
    = Return (mkDiagnostics "✅ Running"
                "⚠️ Connected but Error: alpha.example:27017: [Errno 111] Connection refuse"
                (Some "✅ Set") (Some "alpha") "Not Connected" []) /\
  fst (test_database alpha_env (Some alpha_down))
    <> fst (test_database alpha_env (Some beta_down)).
Proof.
  split; [reflexivity|]. intros H.
  change (fst (test_database alpha_env (Some beta_down)))
    with (Return (mkDiagnostics "✅ Running"
                    "⚠️ Connected but Error: beta.example:27017: [Errno 111] Connection refused"
                    (Some "✅ Set") (Some "alpha") "Not Connected" [])) in H.
  change (fst (test_database alpha_env (Some alpha_down)))
    with (Return (mkDiagnostics "✅ Running"
                    "⚠️ Connected but Error: alpha.example:27017: [Errno 111] Connection refuse"
                    (Some "✅ Set") (Some "alpha") "Not Connected" [])) in H.
  discriminate H.
Qed.

(** C9, amended.  The diagnostics never fail.  They report the database name
    as it is and, of the connection string, whether it is set: over stores
    that show the same collections and the same driver error (or none), two
    environments that agree on the database name and on whether the
    connection string is set give the same response.  What the response can
    still carry of the connection string is what the driver puts into its
    error text, of which the first 50 characters are copied when the store
    cannot be reached. *)
Theorem diagnostics_hide_connection_string (env1 env2 : environ) (st1 st2 : Store) :
  (exists r, fst (test_database env1 (Some st1)) = Return r) /\
  test_database env1 None = test_database env2 None /\
  (env1 !! "DATABASE_NAME" = env2 !! "DATABASE_NAME" ->
   opt_truthy (env1 !! "DATABASE_URL") = opt_truthy (env2 !! "DATABASE_URL") ->
   fault st1 = fault st2 ->
   map fst (map_to_list (colls st1)) = map fst (map_to_list (colls st2)) ->
   fst (test_database env1 (Some st1)) = fst (test_database env2 (Some st2))) /\
  (forall msg r,
     fault st1 = Some msg -> fst (test_database env1 (Some st1)) = Return r ->
     database r = "⚠️ Connected but Error: " ++ str_take 50 msg) /\
  (forall dbname r,
     env1 !! "DATABASE_NAME" = Some dbname -> dbname <> "" ->
     fst (test_database env1 (Some st1)) = Return r -> database_name r = Some dbname).
Proof.
  split.
  { unfold test_database.
    destruct (list_collection_names (Some st1)) as [[names|e] db']; eauto. }
  split; [reflexivity|].
  split.
  { intros Hn Hu Hfault Hnames. unfold test_database, list_collection_names.
    rewrite Hn, Hu. destruct (fault st2) as [msg|] eqn:Hf2.
    - rewrite (on_store_fault _ st1 msg Hfault), (on_store_fault _ st2 msg Hf2).
      reflexivity.
    - rewrite (on_store_ok _ st1 Hfault), (on_store_ok _ st2 Hf2).
      cbn [fst snd]. now rewrite Hnames. }
  split.
  { intros msg r Hf. unfold test_database, list_collection_names.
    rewrite (on_store_fault _ st1 msg Hf). cbn [fst]. intros [= <-]. reflexivity. }
  intros dbname r Hn Hne. unfold test_database. rewrite Hn.
  assert (Ht : opt_truthy (Some dbname) = true)
    by (destruct dbname; [contradiction | reflexivity]).
  rewrite Ht. cbn [default].
  destruct (list_collection_names (Some st1)) as [[names|e] db']; cbn [fst];
    intros [= <-]; reflexivity.
Qed.

Lemma diagnostics_hide_connection_string_witness :
  fst (test_database alpha_env (Some shuffled_store))
    = fst (test_database (<["DATABASE_URL" := "mongodb://elsewhere"]> alpha_env)
                         (Some legacy_store)) /\
  (forall r, fst (test_database alpha_env (Some alpha_down)) = Return r ->
             database r = "⚠️ Connected but Error: "
                          ++ str_take 50 "alpha.example:27017: [Errno 111] Connection refused") /\
  (forall r, fst (test_database alpha_env (Some shuffled_store)) = Return r ->
             database_name r = Some "alpha").
Proof.
  pose proof (diagnostics_hide_connection_string alpha_env
                (<["DATABASE_URL" := "mongodb://elsewhere"]> alpha_env)
                shuffled_store legacy_store) as (_ & _ & Hsame & _ & Hname).
  pose proof (diagnostics_hide_connection_string alpha_env alpha_env
                alpha_down alpha_down) as (_ & _ & _ & Herr & _).
  split; [|split].
  - apply Hsame; reflexivity.
  - intros r Hr. apply (Herr _ r eq_refl Hr).
  - intros r Hr. apply (Hname "alpha" r eq_refl); [discriminate | exact Hr].
Defined.

(** * Further properties of the handlers *)

(** ** Update and delete: what a request does to a reachable store *)

(** X1.  An authorized update or delete whose id is legal but matches no project
    record is answered 404 and leaves the store as it was; for the update the
    payload's [order] has to fit in eight bytes, or the driver fails to
    encode it before it looks for a match. *)
Theorem missing_record_not_found (env : environ) (authorization : option string)
    (st : Store) (project_id : string) (oid : list N) (project : Project) :
  header_authorizes (ADMIN_TOKEN env) authorization ->
  fault st = None ->
  ObjectId project_id = Return oid ->
  Forall (fun x => has_id oid x = false) (coll st "project") ->
  (in_int64 (order project) = true ->
   put_project env authorization project_id project (Some st)
     = (Raise (HTTPException 404 "Not found"), Some st)) /\
  (in_int64 (order project) = false ->
   put_project env authorization project_id project (Some st)
     = (Raise OverflowError, Some st)) /\
  delete_project_route env authorization project_id (Some st)
    = (Raise (HTTPException 404 "Not found"), Some st).
Proof.
  intros Hy Hf Ho Hall. apply require_admin_iff in Hy.
  unfold put_project, delete_project_route.
  rewrite !(Depends_granted _ _ _ Hy).
  split; [|split].
  - intros Hi. apply (update_project_miss st project_id oid project Hf Ho Hi Hall).
  - intros Hi. apply (update_project_overflow st project_id oid project Hf Ho Hi).
  - apply (delete_project_miss st project_id oid Hf Ho Hall).
Qed.

Lemma missing_record_not_found_witness :
  put_project demo_env (Some "Bearer s3cret") "0123456789abcdef01234567" demo_project
              (Some legacy_store)
    = (Raise (HTTPException 404 "Not found"), Some legacy_store) /\
  delete_project_route demo_env (Some "Bearer s3cret") "0123456789abcdef01234567"
                       (Some legacy_store)
    = (Raise (HTTPException 404 "Not found"), Some legacy_store).
Proof.
  assert (Hy : header_authorizes (ADMIN_TOKEN demo_env) (Some "Bearer s3cret")).
  { apply require_admin_iff. reflexivity. }
  destruct (missing_record_not_found demo_env (Some "Bearer s3cret") legacy_store
              "0123456789abcdef01234567"
              [1; 35; 69; 103; 137; 171; 205; 239; 1; 35; 69; 103]%N demo_project Hy
              eq_refl eq_refl) as (Hput & _ & Hdel).
  - repeat constructor.
  - split; [apply Hput; reflexivity | exact Hdel].
Defined.

Lemma set_coll_twice st name docs docs' :
  set_coll (set_coll st name docs) name docs' = set_coll st name docs'.
Proof. unfold set_coll. cbn [colls next_oid fault]. now rewrite insert_insert_eq. Qed.

(** X2.  An authorized delete of a matching record answers [deleted: true] and
    removes the first match, the other records keeping their order; when no
    later record has the same identifier, repeating the request is answered
    404 and changes nothing more. *)
Theorem delete_removes_then_not_found (env : environ) (authorization : option string)
    (st : Store) (project_id : string) (oid : list N) (pre post : list doc) (d : doc) :
  header_authorizes (ADMIN_TOKEN env) authorization ->
  fault st = None ->
  ObjectId project_id = Return oid ->
  coll st "project" = (pre ++ d :: post)%list ->
  Forall (fun x => has_id oid x = false) pre ->
  has_id oid d = true ->
  let st' := set_coll st "project" (pre ++ post)%list in
  delete_project_route env authorization project_id (Some st) = (Return true, Some st') /\
  (Forall (fun x => has_id oid x = false) post ->
   delete_project_route env authorization project_id (Some st')
     = (Raise (HTTPException 404 "Not found"), Some st')).
Proof.
  intros Hy Hf Ho Hc Hpre Hd st'. apply require_admin_iff in Hy.
  unfold delete_project_route. rewrite !(Depends_granted _ _ _ Hy).
  split; [now apply delete_project_hit with (oid := oid) (d := d)|].
  intros Hpost. apply delete_project_miss with (oid := oid); [exact Hf | exact Ho |].
  unfold st'. rewrite coll_set_coll_eq. apply Forall_app. now split.
Qed.

Lemma delete_removes_then_not_found_witness :
  delete_project_route demo_env (Some "Bearer s3cret") "000000000000000000000000"
                       (Some legacy_store)
    = (Return true, Some (set_coll legacy_store "project" [])) /\
  delete_project_route demo_env (Some "Bearer s3cret") "000000000000000000000000"
                       (Some (set_coll legacy_store "project" []))
    = (Raise (HTTPException 404 "Not found"), Some (set_coll legacy_store "project" [])).
Proof.
  assert (Hy : header_authorizes (ADMIN_TOKEN demo_env) (Some "Bearer s3cret")).
  { apply require_admin_iff. reflexivity. }
  destruct (delete_removes_then_not_found demo_env (Some "Bearer s3cret") legacy_store
              "000000000000000000000000" (be_bytes 12 0) [] [] legacy_record
              Hy eq_refl eq_refl eq_refl (List.Forall_nil _) eq_refl) as [H1 H2].
  split; [exact H1 | apply H2; constructor].
Defined.

Lemma has_id_apply_set oid (fields d : doc) :
  fields !! "_id" = None -> has_id oid (apply_set fields d) = has_id oid d.
Proof. intros H. unfold has_id. now rewrite (apply_set_other _ _ _ H). Qed.

Lemma apply_set_twice (fields d : doc) :
  apply_set fields (apply_set fields d) = apply_set fields d.
Proof. unfold apply_set. now rewrite (assoc_L (∪)), (idemp_L (∪)). Qed.

(** X3.  An update is idempotent: sending the same authorized update, with an
    [order] that fits in eight bytes, a second time is answered
    [updated: true] again and leaves the store exactly as the first one left
    it. *)
Theorem update_is_idempotent (env : environ) (authorization : option string)
    (st : Store) (project_id : string) (oid : list N) (project : Project)
    (pre post : list doc) (d : doc) :
  header_authorizes (ADMIN_TOKEN env) authorization ->
  fault st = None ->
  ObjectId project_id = Return oid ->
  in_int64 (order project) = true ->
  coll st "project" = (pre ++ d :: post)%list ->
  Forall (fun x => has_id oid x = false) pre ->
  has_id oid d = true ->
  exists st',
    put_project env authorization project_id project (Some st) = (Return true, Some st') /\
    put_project env authorization project_id project (Some st') = (Return true, Some st').
Proof.
  intros Hy Hf Ho Hi Hc Hpre Hd. apply require_admin_iff in Hy.
  unfold put_project. rewrite (Depends_granted _ _ _ Hy).
  rewrite (update_project_hit st project_id oid project pre d post Hf Ho Hi Hc Hpre Hd).
  eexists. split; [reflexivity|].
  rewrite (Depends_granted _ _ _ Hy).
  rewrite (update_project_hit _ project_id oid project pre
             (apply_set (model_dump project) d) post); try assumption.
  - now rewrite set_coll_twice, apply_set_twice.
  - apply coll_set_coll_eq.
  - rewrite has_id_apply_set; [exact Hd | apply model_dump_no_id].
Qed.

Lemma update_is_idempotent_witness :
  exists st',
    put_project demo_env (Some "Bearer s3cret") "000000000000000000000000" demo_project
                (Some legacy_store) = (Return true, Some st') /\
    put_project demo_env (Some "Bearer s3cret") "000000000000000000000000" demo_project
                (Some st') = (Return true, Some st').
Proof.
  assert (Hy : header_authorizes (ADMIN_TOKEN demo_env) (Some "Bearer s3cret")).
  { apply require_admin_iff. reflexivity. }
  exact (update_is_idempotent demo_env (Some "Bearer s3cret") legacy_store
           "000000000000000000000000" (be_bytes 12 0) demo_project [] [] legacy_record
           Hy eq_refl eq_refl eq_refl eq_refl (List.Forall_nil _) eq_refl).
Defined.

(** ** Identifiers: from bytes to text and back *)

Lemma hex_digit_val x :
  (x < 16)%N -> hex_val (hex_digit x) = Some x /\ is_space (hex_digit x) = false.
Proof.
  intros H.
  assert (Hx : (x = 0 \/ x = 1 \/ x = 2 \/ x = 3 \/ x = 4 \/ x = 5 \/ x = 6 \/ x = 7 \/
                x = 8 \/ x = 9 \/ x = 10 \/ x = 11 \/ x = 12 \/ x = 13 \/ x = 14 \/
                x = 15)%N) by lia.
  repeat (destruct Hx as [-> | Hx]; [split; reflexivity|]).
  subst x. split; reflexivity.
Qed.

Lemma bytes_fromhex_oid_str o :
  Forall (fun b => (b < 256)%N) o -> bytes_fromhex (oid_str o) = Return o.
Proof.
  induction 1 as [|b o Hb _ IH]; [reflexivity|].
  assert (Hhi : (b / 16 < 16)%N) by (apply N.Div0.div_lt_upper_bound; lia).
  assert (Hlo : (b mod 16 < 16)%N) by (apply N.mod_lt; discriminate).
  destruct (hex_digit_val _ Hhi) as [Hv1 Hs1].
  destruct (hex_digit_val _ Hlo) as [Hv2 _].
  cbn [oid_str bytes_fromhex]. rewrite Hs1, Hv1, Hv2, IH. cbn [rbind].
  do 2 f_equal. rewrite N.mul_comm. symmetry. apply N.div_mod. discriminate.
Qed.

Lemma length_oid_str o : String.length (oid_str o) = (2 * length o)%nat.
Proof. induction o as [|b o IH]; [reflexivity|]. cbn [oid_str String.length length]. lia. Qed.

Lemma ObjectId_oid_str o :
  length o = 12%nat -> Forall (fun b => (b < 256)%N) o ->
  ObjectId (oid_str o) = Return o.
Proof.
  intros Hl Hb. unfold ObjectId. rewrite length_oid_str, Hl.
  cbn [Nat.mul Nat.add Nat.eqb]. now rewrite (bytes_fromhex_oid_str o Hb).
Qed.

Lemma be_bytes_length k : forall n, length (be_bytes k n) = k.
Proof.
  induction k as [|k IH]; intros n; [reflexivity|].
  cbn [be_bytes]. rewrite length_app, IH. cbn [length]. lia.
Qed.

Lemma be_bytes_bounded k : forall n, Forall (fun b => (b < 256)%N) (be_bytes k n).
Proof.
  induction k as [|k IH]; intros n; [constructor|].
  cbn [be_bytes]. apply Forall_app. split; [apply IH|].
  constructor; [|constructor]. apply N.mod_lt. discriminate.
Qed.

Lemma ObjectId_fresh n : ObjectId (oid_str (be_bytes 12 n)) = Return (be_bytes 12 n).
Proof. apply ObjectId_oid_str; [apply be_bytes_length | apply be_bytes_bounded]. Qed.

(** X4.  The text a listing shows for a twelve-byte [_id] is a legal identifier
    for update and delete, and it denotes the same twelve bytes. *)
Theorem listed_id_is_legal (o : list N) :
  length o = 12%nat -> Forall (fun b => (b < 256)%N) o ->
  exists s,
    ObjectIdStr_validate (VOid o) = Return s /\
    ObjectId_is_valid s = true /\
    ObjectId s = Return o /\
    ObjectIdStr_validate (VStr s) = Return s.
Proof.
  intros Hl Hb. exists (oid_str o).
  pose proof (ObjectId_oid_str o Hl Hb) as Ho.
  pose proof (ObjectId_is_valid_of _ _ Ho) as Hv.
  repeat split; [exact Hv | exact Ho |].
  cbn [ObjectIdStr_validate]. now rewrite Hv.
Qed.

Lemma listed_id_is_legal_witness :
  exists s,
    ObjectIdStr_validate (VOid [1; 35; 69; 103; 137; 171; 205; 239; 1; 35; 69; 103]%N)
      = Return s /\
    ObjectId_is_valid s = true /\
    ObjectId s = Return [1; 35; 69; 103; 137; 171; 205; 239; 1; 35; 69; 103]%N /\
    ObjectIdStr_validate (VStr s) = Return s.
Proof.
  apply (listed_id_is_legal [1; 35; 69; 103; 137; 171; 205; 239; 1; 35; 69; 103]%N).
  - reflexivity.
  - repeat constructor.
Defined.

(** Only texts of 24 characters are legal identifiers. *)
Lemma legal_id_length s : ObjectId_is_valid s = true -> String.length s = 24%nat.
Proof.
  unfold ObjectId_is_valid, ObjectId. destruct (negb _); [discriminate|].
  destruct (Nat.eqb_spec (String.length s) 24); [auto | discriminate].
Qed.

Lemma lower_char_hex c :
  hex_val (lower_char c) = hex_val c /\ is_space (lower_char c) = is_space c.
Proof. destruct c as [[] [] [] [] [] [] [] []]; split; reflexivity. Qed.

Lemma bytes_fromhex_lower s :
  bytes_fromhex (str_lower s) = bytes_fromhex s /\
  forall c, bytes_fromhex (str_lower (String c s)) = bytes_fromhex (String c s).
Proof.
  induction s as [|d s [IH1 IH2]].
  - split; [reflexivity|]. intros c. cbn [str_lower bytes_fromhex].
    destruct (lower_char_hex c) as [-> ->]. reflexivity.
  - split; [apply IH2|]. intros c.
    change (str_lower (String c (String d s)))
      with (String (lower_char c) (str_lower (String d s))).
    cbn [bytes_fromhex]. destruct (lower_char_hex c) as [-> ->].
    rewrite (IH2 d). cbn [str_lower].
    destruct (lower_char_hex d) as [-> _]. now rewrite IH1.
Qed.

Lemma length_str_lower s : String.length (str_lower s) = String.length s.
Proof. induction s as [|c s IH]; [reflexivity|]. cbn [str_lower String.length]. now rewrite IH. Qed.

Lemma ObjectId_lower s : ObjectId (str_lower s) = ObjectId s.
Proof.
  unfold ObjectId. rewrite length_str_lower.
  now rewrite (proj1 (bytes_fromhex_lower s)).
Qed.

(** X5.  The case of the hexadecimal letters in the id of a request does not
    matter: update and delete do the same with an id and with its lower-case
    form. *)
Theorem id_case_does_not_matter (env : environ) (authorization : option string)
    (project_id : string) (project : Project) (db : option Store) :
  put_project env authorization (str_lower project_id) project db
    = put_project env authorization project_id project db /\
  delete_project_route env authorization (str_lower project_id) db
    = delete_project_route env authorization project_id db.
Proof.
  assert (Hv : ObjectId_is_valid (str_lower project_id) = ObjectId_is_valid project_id).
  { unfold ObjectId_is_valid. rewrite ObjectId_lower. now destruct project_id. }
  unfold put_project, delete_project_route, update_project, delete_project.
  now rewrite Hv, ObjectId_lower.
Qed.

(** ** What is stored validates back *)

Lemma ProjectSchema_apply_set (p : Project) (d : doc) :
  ProjectSchema (apply_set (model_dump p) d) = Return p.
Proof.
  destruct p as [n dsc s g l f ord].
  unfold ProjectSchema, field_str, field_str_list, field_opt_str, field_bool, field_int.
  set (m := model_dump _).
  rewrite (apply_set_payload m d "name" (VStr n) eq_refl).
  rewrite (apply_set_payload m d "description" (VStr dsc) eq_refl).
  rewrite (apply_set_payload m d "stack" (VList (map VStr s)) eq_refl).
  rewrite (apply_set_payload m d "github" (opt_value g) eq_refl).
  rewrite (apply_set_payload m d "live" (opt_value l) eq_refl).
  rewrite (apply_set_payload m d "featured" (VBool f) eq_refl).
  rewrite (apply_set_payload m d "order" (VInt ord) eq_refl).
  cbn [rbind]. rewrite all_str_map. cbn [rbind].
  destruct g, l; reflexivity.
Qed.

(** X6.  Dumping a project and building a project from the dump gives the project
    back: no field is lost or changed on the way into the store. *)
Theorem schema_round_trip (p : Project) : ProjectSchema (model_dump p) = Return p.
Proof.
  rewrite <- (ProjectSchema_apply_set p ∅). unfold apply_set.
  now rewrite (right_id_L ∅ (∪)).
Qed.

(** ** Create, and what follows it *)

Lemma post_projects_run env authorization st project :
  header_authorizes (ADMIN_TOKEN env) authorization -> fault st = None ->
  post_projects env authorization project (Some st)
    = (Return (oid_str (be_bytes 12 (next_oid st))),
       Some (mkStore
               (<["project" :=
                    (coll st "project"
                       ++ [<["_id" := VOid (be_bytes 12 (next_oid st))]>
                             (model_dump project)])%list]> (colls st))
               (next_oid st + 1)%N (fault st))).
Proof.
  intros Hy Hf. apply require_admin_iff in Hy.
  unfold post_projects. rewrite (Depends_granted _ _ _ Hy).
  unfold create_project, bind. now rewrite (create_document_ok st "project" project Hf).
Qed.



(** X9.  Create, then delete: when no stored project carries the identifier the
    store hands out next, deleting by the id a create returned is answered
    [deleted: true] and leaves every collection with the records it had
    before the create. *)
Theorem create_then_delete (env : environ) (authorization : option string)
    (st : Store) (project : Project) :
  header_authorizes (ADMIN_TOKEN env) authorization ->
  fault st = None ->
  Forall (fun x => has_id (be_bytes 12 (next_oid st)) x = false) (coll st "project") ->
  exists new_id st1 st2,
    post_projects env authorization project (Some st) = (Return new_id, Some st1) /\
    delete_project_route env authorization new_id (Some st1) = (Return true, Some st2) /\
    forall name, coll st2 name = coll st name.
Proof.
  intros Hy Hf Hfresh.
  rewrite (post_projects_run env authorization st project Hy Hf).
  set (oid := be_bytes 12 (next_oid st)). set (st1 := mkStore _ _ _).
  assert (Hc1 : coll st1 "project"
                = (coll st "project" ++ [<["_id" := VOid oid]> (model_dump project)])%list).
  { unfold st1, coll at 1. cbn [colls]. now rewrite lookup_insert_eq. }
  assert (Hd : has_id oid (<["_id" := VOid oid]> (model_dump project)) = true).
  { unfold has_id. rewrite lookup_insert_eq. now apply bool_decide_eq_true. }
  exists (oid_str oid), st1, (set_coll st1 "project" (coll st "project" ++ [])%list).
  split; [reflexivity|]. split.
  - apply require_admin_iff in Hy. unfold delete_project_route.
    rewrite (Depends_granted _ _ _ Hy).
    apply delete_project_hit with (oid := oid) (d := <["_id" := VOid oid]> (model_dump project));
      [exact Hf | apply ObjectId_fresh | exact Hc1 | exact Hfresh | exact Hd].
  - intros name. rewrite app_nil_r. destruct (decide (name = "project")) as [->|Hn].
    + apply coll_set_coll_eq.
    + rewrite coll_set_coll_ne by exact Hn.
      unfold st1, coll. cbn [colls]. now rewrite lookup_insert_ne by congruence.
Qed.

Lemma create_then_delete_witness :
  exists new_id st1 st2,
    post_projects demo_env (Some "Bearer s3cret") demo_project (Some legacy_store)
      = (Return new_id, Some st1) /\
    delete_project_route demo_env (Some "Bearer s3cret") new_id (Some st1)
      = (Return true, Some st2) /\
    forall name, coll st2 name = coll legacy_store name.
Proof.
  assert (Hy : header_authorizes (ADMIN_TOKEN demo_env) (Some "Bearer s3cret")).
  { apply require_admin_iff. reflexivity. }
  apply (create_then_delete demo_env (Some "Bearer s3cret") legacy_store demo_project
           Hy eq_refl).
  repeat constructor.
Defined.

(** ** Listing: what it leaves alone, and what breaks it *)

(** X10.  A listing writes only to seed: with a project collection that is not
    empty it leaves the store exactly as it was, whether the records are
    well-formed or not and whether the server can be reached or not. *)
Theorem listing_writes_only_to_seed (st : Store) :
  coll st "project" <> [] -> snd (list_projects (Some st)) = Some st.
Proof.
  intros Hne. destruct (fault st) as [msg|] eqn:Hf.
  - now rewrite (listing_unreachable_store_raises st msg Hf).
  - destruct (list_projects_run st Hf) as (st' & Hrun & _ & _ & _ & Hsame).
    rewrite Hrun. cbn [snd]. now rewrite (Hsame Hne).
Qed.

Lemma listing_writes_only_to_seed_witness :
  snd (list_projects (Some legacy_store)) = Some legacy_store.
Proof. apply (listing_writes_only_to_seed legacy_store). discriminate. Defined.



(** ** The gate fails closed *)

(** X13.  With no admin secret configured (unset or empty) no Authorization header
    opens the gate: every create, update and delete is answered 401 and
    leaves the store as it was. *)
Theorem no_secret_no_access (env : environ) (authorization : option string)
    (project_id : string) (project : Project) (db : option Store) :
  opt_truthy (env !! "ADMIN_TOKEN") = false ->
  post_projects env authorization project db
    = (Raise (HTTPException 401 "Unauthorized"), db) /\
  put_project env authorization project_id project db
    = (Raise (HTTPException 401 "Unauthorized"), db) /\
  delete_project_route env authorization project_id db
    = (Raise (HTTPException 401 "Unauthorized"), db).
Proof.
  intros Hs.
  assert (He : ADMIN_TOKEN env = "").
  { unfold ADMIN_TOKEN. destruct (env !! "ADMIN_TOKEN") as [[|c s]|];
      [reflexivity | discriminate Hs | reflexivity]. }
  assert (Hd : require_admin (ADMIN_TOKEN env) authorization = Raise Unauthorized).
  { destruct (require_admin_cases (ADMIN_TOKEN env) authorization) as [H|H]; [|exact H].
    apply require_admin_iff in H. destruct H as [H _]. contradiction. }
  unfold post_projects, put_project, delete_project_route.
  now rewrite !(Depends_denied _ _ _ Hd).
Qed.

Lemma no_secret_no_access_witness :
  post_projects ∅ (Some "Bearer ") demo_project (Some empty_store)
    = (Raise (HTTPException 401 "Unauthorized"), Some empty_store) /\
  put_project ∅ (Some "Bearer ") "000000000000000000000000" demo_project (Some empty_store)
    = (Raise (HTTPException 401 "Unauthorized"), Some empty_store) /\
  delete_project_route ∅ (Some "Bearer ") "000000000000000000000000" (Some empty_store)
    = (Raise (HTTPException 401 "Unauthorized"), Some empty_store).
Proof.
  apply (no_secret_no_access ∅ (Some "Bearer ") "000000000000000000000000" demo_project
           (Some empty_store)).
  reflexivity.
Defined.

(** ** The now-playing payload *)

Lemma str_join_names sep names :
  str_join sep (map PStr names) = Return (String.concat sep names).
Proof.
  induction names as [|n names IH]; [reflexivity|].
  destruct names as [|n' names]; [reflexivity|].
  change (map PStr (n :: n' :: names)) with (PStr n :: map PStr (n' :: names)).
  change (str_join sep (PStr n :: map PStr (n' :: names)))
    with (rbind (str_join sep (map PStr (n' :: names)))
                (fun r => Return (n ++ sep ++ r))).
  now rewrite IH.
Qed.

Lemma artist_names artists names :
  Forall2 (fun a n => py_get a "name" PNone = Return (PStr n)) artists names ->
  map_result (fun a => py_get a "name" PNone) artists = Return (map PStr names).
Proof.
  induction 1 as [|a n artists names Ha _ IH]; [reflexivity|].
  cbn [map_result map]. now rewrite Ha, IH.
Qed.

(** X14.  With a token and a 200 answer whose item is a track, the payload carries
    the playing flag, the track's name, the artists' names joined by a comma
    and a space in the provider's order, the album's name, the url of the
    first image (or nothing when the album has no image) and the track's
    link. *)
Theorem now_playing_reports_track (env : environ) (P : Provider) (token : pyval)
    (data item album : list (string * pyval)) (artists imgs : list pyval)
    (names : list string) (image song_url : pyval) :
  get_spotify_access_token env P = Return token ->
  truthy token = true ->
  currently_playing P token = HttpResponse 200 (Return (PDict data)) ->
  assoc "item" data = Some (PDict item) -> item <> [] ->
  assoc "artists" item = Some (PList artists) ->
  Forall2 (fun a n => py_get a "name" PNone = Return (PStr n)) artists names ->
  assoc "album" item = Some (PDict album) ->
  assoc "images" album = Some (PList imgs) ->
  match imgs with
  | [] => image = PNone
  | first :: _ => py_get first "url" PNone = Return image
  end ->
  py_get (default (PDict []) (assoc "external_urls" item)) "spotify" PNone
    = Return song_url ->
  now_playing env P
    = Return (PDict [ ("isPlaying",
                       PBool (truthy (default (PBool false) (assoc "is_playing" data))));
                      ("title", default PNone (assoc "name" item));
                      ("artist", PStr (String.concat ", " names));
                      ("album", default PNone (assoc "name" album));
                      ("albumImageUrl", image);
                      ("songUrl", song_url) ]).
Proof.
  intros Ht Htr Hp Hitem Hne Hart Hnames Halb Himgs Himg Hurl.
  unfold now_playing. rewrite Ht. cbn [rbind]. rewrite Htr, Hp.
  cbn [negb requests_call rbind fst snd Z.eqb Pos.eqb py_get].
  rewrite Hitem. cbn [default from_option Datatypes.id truthy].
  destruct item as [|kv item']; [contradiction|].
  cbn [truthy negb rbind py_get]. rewrite Hart. cbn [default from_option Datatypes.id py_iter rbind].
  rewrite (artist_names artists names Hnames). cbn [rbind].
  rewrite str_join_names. cbn [rbind]. rewrite Halb. cbn [default from_option Datatypes.id py_get rbind].
  rewrite Himgs. cbn [default from_option Datatypes.id].
  cbn [py_get] in Hurl.
  destruct imgs as [|first imgs'].
  - subst image. cbn [truthy rbind]. 
    destruct (default (PDict []) (assoc "external_urls" (kv :: item')));
      try discriminate Hurl.
    cbn [rbind py_get] in *. injection Hurl as <-. reflexivity.
  - cbn [truthy py_first rbind]. rewrite Himg. cbn [rbind].
    destruct (default (PDict []) (assoc "external_urls" (kv :: item')));
      try discriminate Hurl.
    cbn [rbind py_get] in *. injection Hurl as <-. reflexivity.
Qed.

Lemma now_playing_reports_track_witness :
  now_playing spotify_env playing_provider
    = Return (PDict [ ("isPlaying", PBool true);
                      ("title", PStr "Song");
                      ("artist", PStr "Ann, Bob");
                      ("album", PStr "LP");
                      ("albumImageUrl", PStr "big.png");
                      ("songUrl", PStr "https://open/song") ]).
Proof.
  apply (now_playing_reports_track spotify_env playing_provider (PStr "tok")
           [ ("is_playing", PBool true);
             ("item", PDict [ ("name", PStr "Song");
                              ("artists", PList [ PDict [("name", PStr "Ann")];
                                                  PDict [("name", PStr "Bob")] ]);
                              ("album", PDict [ ("name", PStr "LP");
                                                ("images", PList [ PDict [("url", PStr "big.png")];
                                                                   PDict [("url", PStr "small.png")] ]) ]);
                              ("external_urls", PDict [("spotify", PStr "https://open/song")]) ]) ]
           [ ("name", PStr "Song");
             ("artists", PList [ PDict [("name", PStr "Ann")];
                                 PDict [("name", PStr "Bob")] ]);
             ("album", PDict [ ("name", PStr "LP");
                               ("images", PList [ PDict [("url", PStr "big.png")];
                                                  PDict [("url", PStr "small.png")] ]) ]);
             ("external_urls", PDict [("spotify", PStr "https://open/song")]) ]
           [ ("name", PStr "LP");
             ("images", PList [ PDict [("url", PStr "big.png")];
                                PDict [("url", PStr "small.png")] ]) ]
           [ PDict [("name", PStr "Ann")]; PDict [("name", PStr "Bob")] ]
           [ PDict [("url", PStr "big.png")]; PDict [("url", PStr "small.png")] ]
           ["Ann"; "Bob"] (PStr "big.png") (PStr "https://open/song"));
    try reflexivity.
  - discriminate.
  - repeat constructor.
Defined.

Ltac walk_result :=
  repeat (cbn [rbind try_except];
          match goal with
          | |- context [rbind ?r _] => destruct r
          | |- context [if ?b then _ else _] => destruct b
          end).

(** X15.  Whatever the environment and the provider do, the payload is a dict whose
    key [isPlaying] holds a boolean. *)
Theorem now_playing_has_flag (env : environ) (P : Provider) :
  exists d b, now_playing env P = Return (PDict d) /\ assoc "isPlaying" d = Some (PBool b).
Proof.
  unfold now_playing.
  destruct (get_spotify_access_token_returns env P) as [token ->].
  walk_result; cbn [rbind try_except]; eexists _, _; split; reflexivity.
Qed.

(** ** Diagnostics: bounds *)

Lemma str_take_length n : forall s, (String.length (str_take n s) <= n)%nat.
Proof.
  induction n as [|n IH]; intros s; [destruct s; cbn; lia|].
  destruct s as [|c s]; cbn [str_take String.length]; [lia|].
  specialize (IH s). lia.
Qed.

(** X16.  The diagnostics always answer, leave the store as it is and list at most
    ten collections, each one a collection of the store.  Without a database
    the response is the fixed "not available" one; when the store cannot be
    reached the response carries at most the first 50 characters of the
    error text and no collection. *)
Theorem diagnostics_are_bounded (env : environ) (db : option Store) :
  exists r,
    test_database env db = (Return r, db) /\
    (length (collections r) <= 10)%nat /\
    match db with
    | None =>
        r = mkDiagnostics "✅ Running" "❌ Not Available" None None "Not Connected" []
    | Some st =>
        match fault st with
        | Some msg =>
            database r = "⚠️ Connected but Error: " ++ str_take 50 msg /\
            (String.length (str_take 50 msg) <= 50)%nat /\
            collections r = []
        | None =>
            database r = "✅ Connected & Working" /\
            Forall (fun name => is_Some (colls st !! name)) (collections r)
        end
    end.
Proof.
  unfold test_database. destruct db as [st|].
  2:{ eexists. split; [reflexivity|]. split; [cbn; lia | reflexivity]. }
  unfold list_collection_names. destruct (fault st) as [msg|] eqn:Hf.
  - rewrite (on_store_fault _ st msg Hf). eexists. split; [reflexivity|].
    cbn [collections database length exn_str]. split; [lia|].
    split; [reflexivity|]. split; [apply str_take_length | reflexivity].
  - rewrite (on_store_ok _ st Hf). cbn [fst snd]. eexists. split; [reflexivity|].
    cbn [collections database]. split.
    + rewrite length_take. lia.
    + split; [reflexivity|].
      apply Forall_forall. intros name Hin.
      apply elem_of_take in Hin as (i & Hin & _).
      apply list_elem_of_lookup_2 in Hin.
      apply list_elem_of_fmap in Hin as ([k v] & -> & Hkv).
      apply elem_of_map_to_list in Hkv. cbn [fst]. now exists v.
Qed.
